(** * ocr_dni_engine: the text-to-record parser of the Peruvian DNI OCR engine

    A shallow embedding of [src/ocr_dni_engine.py]: the date corrector
    [corregir_fecha_ocr], the field parser [parsear_dni] and the entry
    point [extraer_datos_dni], together with the parts of the Python
    runtime they rest on ([str] methods, [int], [datetime], [re]). *)

From Stdlib Require Import String Ascii ZArith NArith List Bool Lia.
Import ListNotations.

Local Open Scope Z_scope.

(** ** Python strings

    A Python [str] is a sequence of Unicode code points; [len], slicing
    and the regular expressions of the source all count code points. *)

Definition char := N.
Definition str := list char.

(** Literals of the source are written as Rocq strings; only ASCII
    literals go through [lit], the accented capitals of the surname
    pattern are given by code point below. *)
Definition lit (s : string) : str :=
  List.map N_of_ascii (list_ascii_of_string s).

Definition ch (s : string) : char :=
  match lit s with c :: _ => c | [] => 0%N end.

Definition char_eqb (a b : char) : bool := N.eqb a b.

Fixpoint str_eqb (a b : str) : bool :=
  match a, b with
  | [], [] => true
  | x :: a', y :: b' => char_eqb x y && str_eqb a' b'
  | _, _ => false
  end.

Definition in_range (lo hi c : char) : bool := (N.leb lo c && N.leb c hi)%bool.

(** [s[i:j]] for [0 <= i <= j]: slicing never fails, it clips. *)
Definition slice (i j : nat) (s : str) : str := firstn (j - i) (skipn i s).

(** [s.startswith(p)] *)
Fixpoint startswith (p s : str) : bool :=
  match p, s with
  | [], _ => true
  | x :: p', y :: s' => char_eqb x y && startswith p' s'
  | _ :: _, [] => false
  end.

(** [Py_ISSPACE], the whitespace of the C locale. *)
Definition is_space_ctype (c : char) : bool :=
  (in_range 9%N 13%N c || char_eqb c 32%N)%bool.

(** The whitespace outside ASCII. *)
Definition is_space_wide (c : char) : bool :=
  (char_eqb c 133%N || char_eqb c 160%N || char_eqb c 5760%N
   || in_range 8192%N 8202%N c || in_range 8232%N 8233%N c
   || char_eqb c 8239%N || char_eqb c 8287%N || char_eqb c 12288%N)%bool.

(** [Py_UNICODE_ISSPACE]: the code points [str.isspace], [str.strip] and
    the [\s] class of [re] treat as whitespace; it adds the four
    separators U+001C to U+001F. *)
Definition is_space (c : char) : bool :=
  (is_space_ctype c || in_range 28%N 31%N c || is_space_wide c)%bool.

(** The whitespace [int] drops around a number: the wide whitespace is
    first turned into blanks, then the C whitespace is skipped; the
    separators U+001C to U+001F are in neither. *)
Definition is_space_int (c : char) : bool :=
  (is_space_ctype c || is_space_wide c)%bool.

Fixpoint lstrip_by (p : char -> bool) (s : str) : str :=
  match s with
  | c :: t => if p c then lstrip_by p t else s
  | [] => []
  end.

Definition strip_by (p : char -> bool) (s : str) : str :=
  rev (lstrip_by p (rev (lstrip_by p s))).

(** [s.strip()] *)
Definition strip (s : str) : str := strip_by is_space s.

(** [s.split(sep)] for a one-character separator: always at least one
    piece, empty pieces kept. *)
Fixpoint split_on (sep : char) (s : str) : list str :=
  match s with
  | [] => [[]]
  | c :: t =>
      if char_eqb c sep then [] :: split_on sep t
      else match split_on sep t with
           | p :: ps => (c :: p) :: ps
           | [] => [[c]]
           end
  end.

(** ** The interpreter's Unicode database

    Outside ASCII, which code points are decimal digits (category Nd,
    with their value) and which are alphanumeric is a table of the
    interpreter, fixed by its Unicode version.  The development is
    parametric in that table; its laws are the two facts about Unicode
    that the parser relies on. *)
Class UnicodeDB := {
  uni_decimal : char -> option Z;
  uni_alnum : char -> bool;
  uni_decimal_range : forall c d, uni_decimal c = Some d -> 0 <= d <= 9;
  uni_decimal_not_space : forall c, is_space c = true -> uni_decimal c = None
}.

(** The table with no digit and no letter outside ASCII: enough to run
    the parser on ASCII and Latin-1 text. *)
Lemma no_decimal_range (c : char) (d : Z) : @None Z = Some d -> 0 <= d <= 9.
Proof. discriminate. Qed.

#[export] Instance ascii_db : UnicodeDB := {|
  uni_decimal := fun _ => None;
  uni_alnum := fun _ => false;
  uni_decimal_range := no_decimal_range;
  uni_decimal_not_space := fun _ _ => eq_refl
|}.

Definition is_ascii (c : char) : bool := N.ltb c 128.

Section Runtime.
Context {U : UnicodeDB}.

(** [Py_UNICODE_TODECIMAL] *)
Definition decimal_value (c : char) : option Z :=
  if is_ascii c then
    if in_range 48%N 57%N c then Some (Z.of_N c - 48) else None
  else uni_decimal c.

(** The [\d] class of [re] on [str] patterns, [str.isdecimal]. *)
Definition is_digit (c : char) : bool :=
  match decimal_value c with Some _ => true | None => false end.

(** The [\w] class: alphanumeric or underscore. *)
Definition is_word (c : char) : bool :=
  if is_ascii c then
    (in_range 48%N 57%N c || in_range 65%N 90%N c || in_range 97%N 122%N c
     || char_eqb c 95%N)%bool
  else (uni_alnum c || is_digit c)%bool.

(** *** [int(s)] in base 10

    Surrounding whitespace is dropped, one sign is allowed, then come
    decimal digits, with single underscores allowed between digits.
    [None] stands for [ValueError].  (The interpreter's limit on the
    number of digits is far above the four characters converted here.) *)
Fixpoint int_digits (acc : Z) (after_digit : bool) (s : str) : option Z :=
  match s with
  | [] => if after_digit then Some acc else None
  | c :: t =>
      match decimal_value c with
      | Some d => int_digits (10 * acc + d) true t
      | None =>
          if (char_eqb c 95%N && after_digit)%bool then int_digits acc false t
          else None
      end
  end.

Definition int (s : str) : option Z :=
  match strip_by is_space_int s with
  | c :: t =>
      if char_eqb c 43%N then int_digits 0 false t
      else if char_eqb c 45%N then option_map Z.opp (int_digits 0 false t)
      else int_digits 0 false (c :: t)
  | [] => None
  end.

End Runtime.

(** ** [datetime]

    The proleptic Gregorian calendar of the interpreter's [datetime]
    module: field validation and day ordinals. *)
Module Calendar.

Definition MINYEAR := 1.
Definition MAXYEAR := 9999.

Definition is_leap (year : Z) : bool :=
  ((year mod 4 =? 0) && (negb (year mod 100 =? 0) || (year mod 400 =? 0)))%bool.

Definition DAYS_IN_MONTH (month : Z) : Z :=
  match month with
  | 1 => 31 | 2 => 28 | 3 => 31 | 4 => 30 | 5 => 31 | 6 => 30
  | 7 => 31 | 8 => 31 | 9 => 30 | 10 => 31 | 11 => 30 | 12 => 31
  | _ => 0
  end.

Definition DAYS_BEFORE_MONTH (month : Z) : Z :=
  match month with
  | 1 => 0 | 2 => 31 | 3 => 59 | 4 => 90 | 5 => 120 | 6 => 151
  | 7 => 181 | 8 => 212 | 9 => 243 | 10 => 273 | 11 => 304 | 12 => 334
  | _ => 0
  end.

Definition days_in_month (year month : Z) : Z :=
  if ((month =? 2) && is_leap year)%bool then 29 else DAYS_IN_MONTH month.

Definition days_before_year (year : Z) : Z :=
  let y := year - 1 in y * 365 + y / 4 - y / 100 + y / 400.

Definition days_before_month (year month : Z) : Z :=
  DAYS_BEFORE_MONTH month
  + (if ((2 <? month) && is_leap year)%bool then 1 else 0).

Definition ymd2ord (year month day : Z) : Z :=
  days_before_year year + days_before_month year month + day.

(** The date fields a [datetime] constructor accepts. *)
Definition check_date_fields (year month day : Z) : bool :=
  ((MINYEAR <=? year) && (year <=? MAXYEAR)
   && (1 <=? month) && (month <=? 12)
   && (1 <=? day) && (day <=? days_in_month year month))%bool.

(** A [datetime] value: a calendar date and the microseconds elapsed
    since its midnight. *)
Record datetime := mk_datetime {
  dt_year : Z; dt_month : Z; dt_day : Z;
  dt_micros : Z
}.

Definition MICROS_PER_DAY := 86400 * 1000000.

(** [datetime(year, month, day)]: midnight of a valid date, [None] for
    [ValueError]. *)
Definition make (year month day : Z) : option datetime :=
  if check_date_fields year month day
  then Some (mk_datetime year month day 0) else None.

Definition well_formed (d : datetime) : Prop :=
  check_date_fields (dt_year d) (dt_month d) (dt_day d) = true
  /\ 0 <= dt_micros d < MICROS_PER_DAY.

Definition toordinal (d : datetime) : Z :=
  ymd2ord (dt_year d) (dt_month d) (dt_day d).

(** [(a - b).days]: a [timedelta] is normalised so that its seconds and
    microseconds are non-negative, hence the floor. *)
Definition sub_days (a b : datetime) : Z :=
  ((toordinal a - toordinal b) * MICROS_PER_DAY + (dt_micros a - dt_micros b))
  / MICROS_PER_DAY.

End Calendar.

(** ** [re]: the backtracking matcher

    The fragment of regular expressions the source uses.  A run of a
    pattern from a position lists every way it can match there, in the
    order in which the backtracking matcher of [re] tries them (greedy
    repetition first tries the longest run); the match reported is the
    first of the list. *)
Module Re.

Inductive regex : Type :=
| Eps
| Chr (p : char -> bool)            (* one character of a class *)
| Seq (r1 r2 : regex)
| Star (p : char -> bool)           (* [c*] on a character class, greedy *)
| Opt (r : regex)                   (* [r?], greedy *)
| Rep (n : nat) (r : regex)         (* [r{n}] *)
| Group (r : regex)                 (* the capturing group of the pattern *)
| Bol                               (* [^] without MULTILINE *)
| Eol                               (* [$] without MULTILINE *)
| Boundary (w : char -> bool).      (* [\b] for the word class [w] *)

(** Where a run stands: the character just before the position, the text
    still ahead and what the group has captured. *)
Record mstate := mk_mstate {
  prev : option char;
  rest : str;
  grp : option str
}.

Fixpoint star_run (p : char -> bool) (pv : option char) (s : str)
    (g : option str) : list mstate :=
  match s with
  | c :: t =>
      if p c then star_run p (Some c) t g ++ [mk_mstate pv s g]
      else [mk_mstate pv s g]
  | [] => [mk_mstate pv [] g]
  end.

Definition at_word (w : char -> bool) (o : option char) : bool :=
  match o with Some c => w c | None => false end.

Fixpoint run (r : regex) (st : mstate) : list mstate :=
  match r with
  | Eps => [st]
  | Chr p =>
      match rest st with
      | c :: t => if p c then [mk_mstate (Some c) t (grp st)] else []
      | [] => []
      end
  | Seq r1 r2 => flat_map (run r2) (run r1 st)
  | Star p => star_run p (prev st) (rest st) (grp st)
  | Opt r' => run r' st ++ [st]
  | Rep n r' =>
      (fix rep (k : nat) (st0 : mstate) : list mstate :=
         match k with
         | O => [st0]
         | S k' => flat_map (rep k') (run r' st0)
         end) n st
  | Group r' =>
      List.map
        (fun st' =>
           mk_mstate (prev st') (rest st')
             (Some (firstn (length (rest st) - length (rest st')) (rest st))))
        (run r' st)
  | Bol => match prev st with None => [st] | Some _ => [] end
  | Eol =>
      match rest st with
      | [] => [st]
      | [c] => if char_eqb c 10%N then [st] else []
      | _ => []
      end
  | Boundary w =>
      if xorb (at_word w (prev st)) (at_word w (hd_error (rest st)))
      then [st] else []
  end.

(** The first way [r] matches at the position [pv | s]. *)
Definition match_at (r : regex) (pv : option char) (s : str) : option mstate :=
  hd_error (run r (mk_mstate pv s None)).

(** [re.match(r, s)] *)
Definition rmatch (r : regex) (s : str) : option mstate := match_at r None s.

(** [re.search(r, s)]: the leftmost position with a match. *)
Fixpoint search_from (r : regex) (pv : option char) (s : str) : option mstate :=
  match match_at r pv s with
  | Some m => Some m
  | None =>
      match s with
      | c :: t => search_from r (Some c) t
      | [] => None
      end
  end.

Definition search (r : regex) (s : str) : option mstate := search_from r None s.

(** [m.group(1)] *)
Definition group1 (m : mstate) : str :=
  match grp m with Some g => g | None => [] end.

(** [re.findall(r, s)] for a pattern with one group: the group of every
    match, the matches taken left to right without overlap.  [skip] counts
    the characters of the last match still to be stepped over.  (No pattern
    of the source matches the empty string.) *)
Fixpoint findall_from (r : regex) (skip : nat) (pv : option char) (s : str)
    : list str :=
  match skip with
  | S k =>
      match s with
      | c :: t => findall_from r k (Some c) t
      | [] => []
      end
  | O =>
      match match_at r pv s with
      | Some m =>
          group1 m ::
          match s with
          | c :: t =>
              findall_from r (length s - length (rest m) - 1) (Some c) t
          | [] => []
          end
      | None =>
          match s with
          | c :: t => findall_from r 0 (Some c) t
          | [] => []
          end
      end
  end.

Definition findall (r : regex) (s : str) : list str := findall_from r 0 None s.

(** A sequence of one-character classes. *)
Definition chars (ps : list (char -> bool)) : regex :=
  fold_right (fun p r => Seq (Chr p) r) Eps ps.

(** A literal string, case-sensitive. *)
Definition lits (s : str) : regex := chars (List.map char_eqb s).

(** [c+] on a character class. *)
Definition Plus (p : char -> bool) : regex := Seq (Chr p) (Star p).

(** *** IGNORECASE

    A letter of the pattern matches a character of the text when both
    have the same lowercase form, or through one of the extra case
    equivalences of [re]; for ASCII pattern letters that adds U+0130 and
    U+0131 to [i], U+017F to [s] and U+212A to [k]. *)
Definition ascii_lower (c : char) : char :=
  if in_range 65%N 90%N c then (c + 32)%N else c.

Definition lower_simple (c : char) : char :=
  if char_eqb c 304%N then 105%N
  else if char_eqb c 8490%N then 107%N
  else ascii_lower c.

Definition ci_eq (p c : char) : bool :=
  (char_eqb (lower_simple c) (ascii_lower p)
   || (char_eqb (ascii_lower p) 105%N && char_eqb c 305%N)
   || (char_eqb (ascii_lower p) 115%N && char_eqb c 383%N))%bool.

(** A literal string under IGNORECASE. *)
Definition ilits (s : str) : regex := chars (List.map ci_eq s).

End Re.

(** ** Results of calls that may raise *)
Inductive result (A : Type) : Type :=
| Ret (a : A)
| Raise (exc : string).
Arguments Ret {A} a.
Arguments Raise {A} exc.

Definition slash : char := ch "/".

Section Engine.
Context {U : UnicodeDB}.

(** ** 3) Corrección de errores OCR *)

(** [f"{dia}/{mes}/{anio}"] *)
Definition fmt_fecha (dia mes anio : str) : str :=
  dia ++ slash :: mes ++ slash :: anio.

Definition corregir_fecha_ocr (fecha_str : str) : result (option str) :=
  if negb (length fecha_str =? 8)%nat then Ret None
  else
    let dia := slice 0 2 fecha_str in
    let mes := slice 2 4 fecha_str in
    let anio := slice 4 8 fecha_str in
    (* the day test converts [dia] outside the [try] block *)
    let dia' :=
      if startswith (lit "3") dia then
        match int dia with
        | Some n => Ret (if 31 <? n then ch "0" :: slice 1 2 dia else dia)
        | None => Raise "ValueError"
        end
      else Ret dia in
    match dia' with
    | Raise e => Raise e
    | Ret dia =>
        let mes := if str_eqb mes (lit "19") then lit "10" else mes in
        let anio :=
          if str_eqb anio (lit "2062") then lit "2002"
          else if str_eqb anio (lit "2919") then lit "2019"
          else anio in
        match int anio, int mes, int dia with
        | Some y, Some m, Some d =>
            match Calendar.make y m d with
            | Some _ => Ret (Some (fmt_fecha dia mes anio))
            | None => Ret None
            end
        | _, _, _ => Ret None
        end
    end.

(** ** 4) Parser principal *)

(** The record built by the parser: a dict over a fixed set of keys, an
    absent key being [None]. *)
Record datos := mk_datos {
  dni : option str;
  apellido_paterno : option str;
  apellido_materno : option str;
  nombres : option str;
  fecha_nacimiento : option str;
  fecha_nacimiento_iso : option str;
  edad : option Z;
  sexo : option str;
  sexo_completo : option str;
  nombre_completo : option str
}.

Definition datos_vacio : datos :=
  mk_datos None None None None None None None None None None.

Definition set_dni v d := mk_datos (Some v) (apellido_paterno d)
  (apellido_materno d) (nombres d) (fecha_nacimiento d)
  (fecha_nacimiento_iso d) (edad d) (sexo d) (sexo_completo d)
  (nombre_completo d).
Definition set_apellido_paterno v d := mk_datos (dni d) (Some v)
  (apellido_materno d) (nombres d) (fecha_nacimiento d)
  (fecha_nacimiento_iso d) (edad d) (sexo d) (sexo_completo d)
  (nombre_completo d).
Definition set_apellido_materno v d := mk_datos (dni d) (apellido_paterno d)
  (Some v) (nombres d) (fecha_nacimiento d)
  (fecha_nacimiento_iso d) (edad d) (sexo d) (sexo_completo d)
  (nombre_completo d).
Definition set_nombres v d := mk_datos (dni d) (apellido_paterno d)
  (apellido_materno d) (Some v) (fecha_nacimiento d)
  (fecha_nacimiento_iso d) (edad d) (sexo d) (sexo_completo d)
  (nombre_completo d).
Definition set_fecha f iso e d := mk_datos (dni d) (apellido_paterno d)
  (apellido_materno d) (nombres d) (Some f) (Some iso) (Some e)
  (sexo d) (sexo_completo d) (nombre_completo d).
Definition set_sexo v full d := mk_datos (dni d) (apellido_paterno d)
  (apellido_materno d) (nombres d) (fecha_nacimiento d)
  (fecha_nacimiento_iso d) (edad d) (Some v) (Some full)
  (nombre_completo d).
Definition set_nombre_completo v d := mk_datos (dni d) (apellido_paterno d)
  (apellido_materno d) (nombres d) (fecha_nacimiento d)
  (fecha_nacimiento_iso d) (edad d) (sexo d) (sexo_completo d) (Some v).

Import Re.

Definition digit8 : regex := Rep 8 (Chr is_digit).

(** [DNI\s*(\d{8})], IGNORECASE *)
Definition re_dni : regex :=
  Seq (ilits (lit "DNI")) (Seq (Star is_space) (Group digit8)).

(** [PER(\d{8})] *)
Definition re_mrz_dni : regex := Seq (lits (lit "PER")) (Group digit8).

(** [PRIMER\s*APELLIDO], IGNORECASE *)
Definition re_primer_apellido : regex :=
  Seq (ilits (lit "PRIMER")) (Seq (Star is_space) (ilits (lit "APELLIDO"))).

Definition punto_o_espacio (c : char) : bool :=
  (char_eqb c (ch ".") || is_space c)%bool.

(** [SEGUNDO[\.\s]*APELLIDO], IGNORECASE *)
Definition re_segundo_apellido : regex :=
  Seq (ilits (lit "SEGUNDO"))
      (Seq (Star punto_o_espacio) (ilits (lit "APELLIDO"))).

(** [PRE\s*NOMBRES?], IGNORECASE *)
Definition re_pre_nombres : regex :=
  Seq (ilits (lit "PRE"))
      (Seq (Star is_space)
           (Seq (ilits (lit "NOMBRE")) (Opt (Chr (ci_eq (ch "S")))))).

(** The class [[A-ZÁÉÍÓÚÑ\s]]: the accented capitals are U+00C1, U+00C9,
    U+00CD, U+00D3, U+00DA and U+00D1. *)
Definition letra_o_espacio (c : char) : bool :=
  (in_range 65%N 90%N c
   || char_eqb c 193%N || char_eqb c 201%N || char_eqb c 205%N
   || char_eqb c 211%N || char_eqb c 218%N || char_eqb c 209%N
   || is_space c)%bool.

(** [^[A-ZÁÉÍÓÚÑ\s]+$] *)
Definition re_letras : regex := Seq Bol (Seq (Plus letra_o_espacio) Eol).

(** [\b(\d{8})\b] *)
Definition re_fecha : regex :=
  Seq (Boundary is_word) (Seq (Group digit8) (Boundary is_word)).

Definition M_o_F (c : char) : bool := (char_eqb c (ch "M") || char_eqb c (ch "F"))%bool.

(** [\d{6}([MF])\d{7}] *)
Definition re_mrz_sexo : regex :=
  Seq (Rep 6 (Chr is_digit)) (Seq (Group (Chr M_o_F)) (Rep 7 (Chr is_digit))).

Definition found (o : option mstate) : bool :=
  match o with Some _ => true | None => false end.

(** [[l.strip() for l in texto_ocr.split('\n') if l.strip()]] *)
Definition lineas_de (texto_ocr : str) : list str :=
  filter (fun l => negb (str_eqb l []))
         (List.map strip (split_on 10%N texto_ocr)).

(** The document number. *)
Definition extraer_dni (texto_ocr : str) (d : datos) : datos :=
  match search re_dni texto_ocr with
  | Some dni_match =>
      let dni_raw := group1 dni_match in
      if startswith (lit "00") dni_raw then
        match search re_mrz_dni texto_ocr with
        | Some mrz_dni => set_dni (group1 mrz_dni) d
        | None => set_dni dni_raw d
        end
      else set_dni dni_raw d
  | None => d
  end.

(** The three loops over the lines share one shape: stop at the first
    line matching the anchor, and look at the line after it, if any. *)
Fixpoint tras_ancla (ancla : regex) (lineas : list str) : option str :=
  match lineas with
  | [] => None
  | linea :: siguientes =>
      if found (search ancla linea) then hd_error siguientes
      else tras_ancla ancla siguientes
  end.

Definition extraer_apellido_paterno (lineas : list str) (d : datos) : datos :=
  match tras_ancla re_primer_apellido lineas with
  | Some candidato =>
      if found (rmatch re_letras candidato)
      then set_apellido_paterno candidato d else d
  | None => d
  end.

Definition extraer_apellido_materno (lineas : list str) (d : datos) : datos :=
  match tras_ancla re_segundo_apellido lineas with
  | Some candidato =>
      let candidato :=
        if str_eqb candidato (lit "MUNEZ") then lit "NUNEZ" else candidato in
      if found (rmatch re_letras candidato)
      then set_apellido_materno candidato d else d
  | None => d
  end.

Definition nombres_comunes : list str :=
  List.map lit ["MARIA"; "MONICA"; "JUAN"; "JOSE"; "LUIS"; "CARLOS"; "ISABEL"]%string.

Definition espacio : char := ch " ".

(** The splitting loop: the first catalog name the candidate strictly
    extends gets a space after it, and the loop breaks. *)
Fixpoint separar_nombres (catalogo : list str) (candidato : str) : str :=
  match catalogo with
  | [] => candidato
  | nombre :: otros =>
      if (startswith nombre candidato
          && (length nombre <? length candidato)%nat)%bool
      then nombre ++ espacio :: skipn (length nombre) candidato
      else separar_nombres otros candidato
  end.

Definition extraer_nombres (lineas : list str) (d : datos) : datos :=
  match tras_ancla re_pre_nombres lineas with
  | Some candidato => set_nombres (separar_nombres nombres_comunes candidato) d
  | None => d
  end.

Definition guion : char := ch "-".

(** [(hoy - fecha_nac).days // 365] *)
Definition edad_en (hoy fecha_nac : Calendar.datetime) : Z :=
  Calendar.sub_days hoy fecha_nac / 365.

(** The loop over the date candidates.  [hoy] is the value of
    [datetime.now()]; the unpacking of the split date sits outside the
    [try] block, as does the call of the corrector. *)
Fixpoint extraer_fecha (hoy : Calendar.datetime) (fechas_encontradas : list str)
    (d : datos) : result datos :=
  match fechas_encontradas with
  | [] => Ret d
  | fecha_raw :: otras =>
      match corregir_fecha_ocr fecha_raw with
      | Raise e => Raise e
      | Ret None => extraer_fecha hoy otras d
      | Ret (Some []) => extraer_fecha hoy otras d
      | Ret (Some fecha_corregida) =>
          match split_on slash fecha_corregida with
          | [dia; mes; anio] =>
              match int anio, int mes, int dia with
              | Some y, Some m, Some dd =>
                  match Calendar.make y m dd with
                  | Some fecha_nac =>
                      let e := edad_en hoy fecha_nac in
                      if ((0 <=? e) && (e <=? 120))%bool then
                        Ret (set_fecha fecha_corregida
                               (anio ++ guion :: mes ++ guion :: dia) e d)
                      else extraer_fecha hoy otras d
                  | None => extraer_fecha hoy otras d
                  end
              | _, _, _ => extraer_fecha hoy otras d
              end
          | _ => Raise "ValueError"
          end
      end
  end.

Definition extraer_sexo (texto_ocr : str) (d : datos) : datos :=
  match search re_mrz_sexo texto_ocr with
  | Some mrz_sexo =>
      let s := group1 mrz_sexo in
      set_sexo s (if str_eqb s (lit "M") then lit "MASCULINO"
                  else lit "FEMENINO") d
  | None => d
  end.

Definition armar_nombre_completo (d : datos) : datos :=
  match nombres d, apellido_paterno d, apellido_materno d with
  | Some n, Some p, Some m =>
      set_nombre_completo (n ++ espacio :: p ++ espacio :: m) d
  | Some n, Some p, None => set_nombre_completo (n ++ espacio :: p) d
  | _, _, _ => d
  end.

Definition parsear_dni (hoy : Calendar.datetime) (texto_ocr : str)
    : result datos :=
  let lineas := lineas_de texto_ocr in
  let d := extraer_dni texto_ocr datos_vacio in
  let d := extraer_apellido_paterno lineas d in
  let d := extraer_apellido_materno lineas d in
  let d := extraer_nombres lineas d in
  match extraer_fecha hoy (findall re_fecha texto_ocr) d with
  | Raise e => Raise e
  | Ret d => Ret (armar_nombre_completo (extraer_sexo texto_ocr d))
  end.

End Engine.

(** ** 5) Función principal

    The collaborators of the entry point are outside the parser: the OCR
    engine created at import time (absent when its creation failed), the
    image reader and the image enhancement.  Each may raise; the OCR
    result is a list of pages, each absent or a list of recognised blocks,
    of which only the text is read. *)
Section Pipeline.
Context {U : UnicodeDB}.
Variable imagen : Type.

Record colaboradores := mk_colaboradores {
  ocr_engine : option (imagen -> result (option (list (option (list str)))));
  cv2_imread : str -> result (option imagen);
  mejorar_imagen_avanzada : imagen -> result imagen
}.

(** The dict returned: the parsed record, or the single key [error]. *)
Inductive salida : Type :=
| Datos (d : datos)
| Error (mensaje : str).

(** ['\n'.join(...)] *)
Fixpoint join_lineas (bloques : list str) : str :=
  match bloques with
  | [] => []
  | [b] => b
  | b :: otros => b ++ 10%N :: join_lineas otros
  end.

Definition error_procesando (e : string) : salida :=
  Error (lit "Error procesando DNI: " ++ lit e).

Definition extraer_datos_dni (c : colaboradores) (hoy : Calendar.datetime)
    (imagen_path : str) : salida :=
  match ocr_engine c with
  | None => Error (lit "OCR no inicializado correctamente")
  | Some ocr =>
      match cv2_imread c imagen_path with
      | Raise e => error_procesando e
      | Ret None => Error (lit "No se pudo cargar la imagen")
      | Ret (Some img) =>
          match mejorar_imagen_avanzada c img with
          | Raise e => error_procesando e
          | Ret img_mejorada =>
              match ocr img_mejorada with
              | Raise e => error_procesando e
              | Ret (Some (Some (b :: bs) :: _)) =>
                  let texto_completo := join_lineas (b :: bs) in
                  match parsear_dni hoy texto_completo with
                  | Raise e => error_procesando e
                  | Ret d =>
                      match dni d with
                      | Some (_ :: _) => Datos d
                      | _ => Error (lit "No se pudo detectar el DNI en la imagen")
                      end
                  end
              | Ret _ => Error (lit "No se pudo extraer texto de la imagen")
              end
          end
      end
  end.

End Pipeline.


(** * Properties of the runtime *)

(** ** The matcher *)
Module ReFacts.
Import Re.

(** The character before the position reached after reading [consumed]. *)
Definition prev_after (pv : option char) (consumed : str) : option char :=
  fold_left (fun _ c => Some c) consumed pv.

(** Pointwise test of a prefix against a sequence of classes. *)
Fixpoint prefix_ok (ps : list (char -> bool)) (s : str) : bool :=
  match ps, s with
  | [], _ => true
  | p :: ps', c :: t => p c && prefix_ok ps' t
  | _ :: _, [] => false
  end.

Fixpoint dropwhile (p : char -> bool) (s : str) : str :=
  match s with
  | c :: t => if p c then dropwhile p t else s
  | [] => []
  end.

Fixpoint takewhile (p : char -> bool) (s : str) : str :=
  match s with
  | c :: t => if p c then c :: takewhile p t else []
  | [] => []
  end.

Lemma take_drop_while p s : takewhile p s ++ dropwhile p s = s.
Proof.
  induction s as [|c t IH]; simpl; [reflexivity|].
  destruct (p c); simpl; [now rewrite IH | reflexivity].
Qed.

Lemma takewhile_all p s : forallb p (takewhile p s) = true.
Proof.
  induction s as [|c t IH]; simpl; [reflexivity|].
  destruct (p c) eqn:E; simpl; [now rewrite E | reflexivity].
Qed.

Lemma dropwhile_head p s c t : dropwhile p s = c :: t -> p c = false.
Proof.
  induction s as [|x s IH]; simpl; [discriminate|].
  destruct (p x) eqn:E; [exact IH|].
  intros H; injection H as -> _; exact E.
Qed.

Lemma dropwhile_app p a b :
  forallb p a = true -> dropwhile p (a ++ b) = dropwhile p b.
Proof.
  induction a as [|x a IH]; simpl; [reflexivity|].
  intros H; apply andb_prop in H as [-> H]; auto.
Qed.

Lemma takewhile_app p a b :
  forallb p a = true -> takewhile p (a ++ b) = a ++ takewhile p b.
Proof.
  induction a as [|x a IH]; simpl; [reflexivity|].
  intros H; apply andb_prop in H as [-> H]; now rewrite IH.
Qed.

Lemma run_chars ps st :
  run (chars ps) st =
  if prefix_ok ps (rest st)
  then [mk_mstate (prev_after (prev st) (firstn (length ps) (rest st)))
                  (skipn (length ps) (rest st)) (grp st)]
  else [].
Proof.
  revert st; induction ps as [|p ps IH]; intros [pv s g]; simpl.
  - reflexivity.
  - destruct s as [|c t]; simpl; [reflexivity|].
    destruct (p c); simpl; [|reflexivity].
    rewrite IH; simpl. now rewrite app_nil_r.
Qed.

Lemma run_chr p st :
  run (Chr p) st =
  match rest st with
  | c :: t => if p c then [mk_mstate (Some c) t (grp st)] else []
  | [] => []
  end.
Proof. reflexivity. Qed.

Lemma run_rep_S n r st :
  run (Rep (S n) r) st = flat_map (run (Rep n r)) (run r st).
Proof. reflexivity. Qed.

Lemma run_rep_chr p n st :
  run (Rep n (Chr p)) st =
  if ((n <=? length (rest st))%nat && forallb p (firstn n (rest st)))%bool
  then [mk_mstate (prev_after (prev st) (firstn n (rest st)))
                  (skipn n (rest st)) (grp st)]
  else [].
Proof.
  revert st; induction n as [|n IH]; intros [pv s g].
  - reflexivity.
  - rewrite run_rep_S, run_chr. cbn [rest prev grp].
    destruct s as [|c t]; [reflexivity|].
    cbn [firstn skipn forallb length].
    destruct (p c); [|now rewrite andb_false_r].
    cbn [flat_map]. rewrite IH, app_nil_r. reflexivity.
Qed.

(** Greedy repetition followed by something that cannot start with a
    character of the class: only the longest run is left to try. *)
Lemma star_then (f : mstate -> list mstate) p pv s g :
  (forall pv' c t g', p c = true -> f (mk_mstate pv' (c :: t) g') = []) ->
  flat_map f (star_run p pv s g) =
  f (mk_mstate (prev_after pv (takewhile p s)) (dropwhile p s) g).
Proof.
  intros Hf; revert pv; induction s as [|c t IH]; intros pv; simpl.
  - now rewrite app_nil_r.
  - destruct (p c) eqn:E; simpl.
    + rewrite flat_map_app, IH. simpl. rewrite (Hf _ _ _ _ E).
      now rewrite !app_nil_r.
    + now rewrite app_nil_r.
Qed.

(** [re.search] reports the match at the leftmost position that has one. *)
Lemma search_from_spec r pv s m :
  search_from r pv s = Some m <->
  exists a b,
    s = a ++ b /\ match_at r (prev_after pv a) b = Some m
    /\ forall a' b', s = a' ++ b' -> (length a' < length a)%nat ->
                     match_at r (prev_after pv a') b' = None.
Proof.
  revert pv; induction s as [|c t IH]; intros pv; simpl.
  - destruct (match_at r pv []) eqn:E.
    + split.
      * intros [= <-]. exists [], []. repeat split; auto.
        intros a' b' _ H; simpl in H; lia.
      * intros (a & b & Hs & Hm & _).
        symmetry in Hs; apply app_eq_nil in Hs as [-> ->].
        simpl in Hm; congruence.
    + split; [discriminate|].
      intros (a & b & Hs & Hm & _).
      symmetry in Hs; apply app_eq_nil in Hs as [-> ->].
      simpl in Hm; congruence.
  - destruct (match_at r pv (c :: t)) eqn:E.
    + split.
      * intros [= <-]. exists [], (c :: t). repeat split; auto.
        intros a' b' _ H; simpl in H; lia.
      * intros (a & b & Hs & Hm & Hmin).
        destruct a as [|x a]; simpl in *; [subst b; congruence|].
        specialize (Hmin [] (c :: t) eq_refl ltac:(simpl; lia)).
        simpl in Hmin; congruence.
    + rewrite IH; split.
      * intros (a & b & -> & Hm & Hmin).
        exists (c :: a), b; repeat split; auto.
        intros a' b' Hs Hl. destruct a' as [|x a']; simpl in *.
        -- subst b'; exact E.
        -- injection Hs as <- Hs. apply Hmin; [exact Hs | lia].
      * intros (a & b & Hs & Hm & Hmin).
        destruct a as [|x a]; simpl in *; [subst b; congruence|].
        injection Hs as <- ->.
        exists a, b; repeat split; auto.
        intros a' b' Hs Hl.
        apply (Hmin (c :: a') b'); simpl; [now rewrite Hs | lia].
Qed.

End ReFacts.

(** ** Digits, whitespace and [int] *)
Section RuntimeFacts.
Context {U : UnicodeDB}.

Ltac bool_arith :=
  unfold is_space, is_space_ctype, is_space_wide, is_ascii, in_range,
    char_eqb in *;
  repeat rewrite ?orb_true_iff, ?andb_true_iff, ?orb_false_iff,
    ?andb_false_iff, ?N.leb_le, ?N.leb_gt, ?N.eqb_eq, ?N.eqb_neq,
    ?N.ltb_lt, ?N.ltb_ge in *;
  lia.

Lemma digit_not_space c : is_digit c = true -> is_space c = false.
Proof.
  unfold is_digit, decimal_value. intros H.
  destruct (is_ascii c) eqn:Ea.
  - destruct (in_range 48%N 57%N c) eqn:Er; [|discriminate].
    apply not_true_is_false; intros Hs. bool_arith.
  - apply not_true_is_false; intros Hs.
    rewrite (uni_decimal_not_space c Hs) in H. discriminate.
Qed.

Lemma digit_is_word c : is_digit c = true -> is_word c = true.
Proof.
  unfold is_word. intros H. destruct (is_ascii c) eqn:Ea.
  - unfold is_digit, decimal_value in H. rewrite Ea in H.
    destruct (in_range 48%N 57%N c); [reflexivity | discriminate].
  - rewrite H. apply orb_true_r.
Qed.

Lemma forallb_rev (p : char -> bool) s : forallb p (rev s) = forallb p s.
Proof.
  induction s as [|c t IH]; simpl; [reflexivity|].
  rewrite forallb_app, IH. simpl. rewrite andb_true_r. apply andb_comm.
Qed.

Lemma digit_not_space_int c : is_digit c = true -> is_space_int c = false.
Proof.
  intros H. apply digit_not_space in H. unfold is_space in H.
  unfold is_space_int. apply orb_false_iff in H as [H Hw].
  apply orb_false_iff in H as [Hc _]. now rewrite Hc, Hw.
Qed.

Lemma lstrip_digits s :
  forallb is_digit s = true -> lstrip_by is_space_int s = s.
Proof.
  destruct s as [|c t]; simpl; [reflexivity|].
  intros H; apply andb_prop in H as [H _].
  now rewrite (digit_not_space_int c H).
Qed.

Lemma strip_digits s :
  forallb is_digit s = true -> strip_by is_space_int s = s.
Proof.
  intros H. unfold strip_by. rewrite (lstrip_digits s H).
  rewrite lstrip_digits by now rewrite forallb_rev.
  apply rev_involutive.
Qed.

(** The number a string of decimal digits denotes. *)
Definition digit_or_zero (c : char) : Z :=
  match decimal_value c with Some d => d | None => 0 end.

Definition valor (s : str) : Z :=
  fold_left (fun acc c => 10 * acc + digit_or_zero c) s 0.

Lemma int_digits_all acc b c t :
  forallb is_digit (c :: t) = true ->
  int_digits acc b (c :: t) =
  Some (fold_left (fun a x => 10 * a + digit_or_zero x) (c :: t) acc).
Proof.
  revert acc b c; induction t as [|x t IH]; intros acc b c H;
    simpl in H; apply andb_prop in H as [Hc Ht].
  - unfold is_digit in Hc. simpl. unfold digit_or_zero.
    destruct (decimal_value c); [reflexivity | discriminate].
  - change (int_digits acc b (c :: x :: t))
      with (match decimal_value c with
            | Some d => int_digits (10 * acc + d) true (x :: t)
            | None =>
                if (char_eqb c 95%N && b)%bool
                then int_digits acc false (x :: t) else None
            end).
    unfold is_digit in Hc.
    destruct (decimal_value c) as [d|] eqn:E; [|discriminate].
    rewrite (IH _ _ _ Ht). cbn [fold_left].
    replace (digit_or_zero c) with d by (unfold digit_or_zero; now rewrite E).
    reflexivity.
Qed.

Lemma digit_not_sign c :
  is_digit c = true -> char_eqb c 43%N = false /\ char_eqb c 45%N = false.
Proof.
  intros H; split; apply not_true_is_false; intros E;
    apply N.eqb_eq in E; subst c; discriminate H.
Qed.

(** On a non-empty string of digits [int] returns its value. *)
Lemma int_digit_string s :
  s <> [] -> forallb is_digit s = true -> int s = Some (valor s).
Proof.
  intros Hne H. unfold int. rewrite (strip_digits s H).
  destruct s as [|c t]; [congruence|].
  assert (Hc : is_digit c = true) by (simpl in H; now apply andb_prop in H).
  destruct (digit_not_sign c Hc) as [-> ->].
  now rewrite int_digits_all.
Qed.

End RuntimeFacts.

(** ** The calendar *)
Module CalendarFacts.
Import Calendar.

(** Leap years and real dates of the Gregorian calendar, as they are
    usually stated. *)
Definition bisiesto (anio : Z) : Prop :=
  (anio mod 4 = 0 /\ anio mod 100 <> 0) \/ anio mod 400 = 0.

Definition fecha_real (anio mes dia : Z) : Prop :=
  1 <= anio <= 9999 /\ 1 <= mes <= 12 /\ 1 <= dia
  /\ (dia <= 28
      \/ (dia <= 29 /\ (mes <> 2 \/ bisiesto anio))
      \/ (dia <= 30 /\ mes <> 2)
      \/ (dia <= 31
          /\ (mes = 1 \/ mes = 3 \/ mes = 5 \/ mes = 7 \/ mes = 8
              \/ mes = 10 \/ mes = 12))).

Lemma mod_400_4 y : y mod 400 = 0 -> y mod 4 = 0.
Proof.
  intros H. apply Z.mod_divide in H; [|lia]. destruct H as [k ->].
  replace (k * 400) with (k * 100 * 4) by lia. apply Z.mod_mul; lia.
Qed.

Lemma is_leap_iff y : is_leap y = true <-> bisiesto y.
Proof.
  unfold is_leap, bisiesto.
  pose proof (mod_400_4 y) as H4.
  destruct (Z.eqb_spec (y mod 4) 0), (Z.eqb_spec (y mod 100) 0),
    (Z.eqb_spec (y mod 400) 0); simpl; split; intros H;
    try reflexivity; try discriminate; tauto.
Qed.

Lemma check_date_fields_iff y m d :
  check_date_fields y m d = true <-> fecha_real y m d.
Proof.
  unfold check_date_fields, fecha_real, MINYEAR, MAXYEAR.
  rewrite !andb_true_iff, !Z.leb_le.
  assert (Hd : days_in_month y m = 29 /\ m = 2 /\ bisiesto y
               \/ days_in_month y m = DAYS_IN_MONTH m
                  /\ (m <> 2 \/ ~ bisiesto y)).
  { unfold days_in_month. destruct (Z.eqb_spec m 2) as [->|Hm]; simpl.
    - destruct (is_leap y) eqn:E.
      + left. repeat split. now apply is_leap_iff.
      + right. split; [reflexivity|]. right. rewrite <- is_leap_iff.
        congruence.
    - right. split; [reflexivity | now left]. }
  split.
  - intros (((((Hy1 & Hy2) & Hm1) & Hm2) & Hd1) & Hd2).
    repeat split; try assumption.
    assert (Hm : m = 1 \/ m = 2 \/ m = 3 \/ m = 4 \/ m = 5 \/ m = 6 \/ m = 7
                 \/ m = 8 \/ m = 9 \/ m = 10 \/ m = 11 \/ m = 12) by lia.
    destruct Hd as [(Hdm & -> & Hb) | (Hdm & Hb)]; rewrite Hdm in Hd2.
    + right; left. split; [lia | now right].
    + repeat destruct Hm as [-> | Hm]; try subst m; simpl in Hd2;
        try lia;
        try solve [destruct Hb as [Hb | Hb]; [congruence | left; exact Hd2]].
  - intros (Hy & Hm & Hd1 & Hcases).
    repeat split; try lia.
    assert (Hmm : m = 1 \/ m = 2 \/ m = 3 \/ m = 4 \/ m = 5 \/ m = 6 \/ m = 7
                 \/ m = 8 \/ m = 9 \/ m = 10 \/ m = 11 \/ m = 12) by lia.
    destruct Hd as [(Hdm & -> & Hb) | (Hdm & Hb)]; rewrite Hdm.
    + lia.
    + repeat destruct Hmm as [-> | Hmm]; try subst m; simpl; try lia;
        try solve
          [destruct Hb as [Hb | Hb]; [congruence|];
           destruct Hcases as [H | [[H [H' | H']] | [[H H'] | [H H']]]];
           try lia; try congruence; tauto].
Qed.

End CalendarFacts.

(** * The date corrector *)
Section Corrector.
Context {U : UnicodeDB}.
Import CalendarFacts.

(** The three repairs, as the specification words them. *)
Definition dia_corregido (dia : str) : str :=
  if (startswith (lit "3") dia && (31 <? valor dia))%bool
  then ch "0" :: slice 1 2 dia else dia.

Definition mes_corregido (mes : str) : str :=
  if str_eqb mes (lit "19") then lit "10" else mes.

Definition anio_corregido (anio : str) : str :=
  if str_eqb anio (lit "2062") then lit "2002"
  else if str_eqb anio (lit "2919") then lit "2019"
  else anio.

Lemma is_digit_ascii_0 : is_digit (ch "0") = true.
Proof. reflexivity. Qed.

Lemma dia_corregido_digits a b :
  is_digit a = true -> is_digit b = true ->
  forallb is_digit (dia_corregido [a; b]) = true.
Proof.
  intros Ha Hb. unfold dia_corregido.
  destruct (_ && _)%bool; cbn [slice skipn firstn Nat.sub forallb];
    rewrite ?Ha, ?Hb; reflexivity.
Qed.

Lemma mes_corregido_digits m :
  forallb is_digit m = true -> forallb is_digit (mes_corregido m) = true.
Proof. unfold mes_corregido. destruct (str_eqb _ _); auto. Qed.

Lemma anio_corregido_digits y :
  forallb is_digit y = true -> forallb is_digit (anio_corregido y) = true.
Proof.
  unfold anio_corregido. destruct (str_eqb _ _); auto.
  destruct (str_eqb _ _); auto.
Qed.

Lemma dia_corregido_nonempty a b : dia_corregido [a; b] <> [].
Proof. unfold dia_corregido. destruct (_ && _)%bool; discriminate. Qed.

Lemma mes_corregido_nonempty a b : mes_corregido [a; b] <> [].
Proof. unfold mes_corregido. destruct (str_eqb _ _); discriminate. Qed.

Lemma anio_corregido_nonempty a b c d : anio_corregido [a; b; c; d] <> [].
Proof.
  unfold anio_corregido. destruct (str_eqb _ _); [discriminate|].
  destruct (str_eqb _ _); discriminate.
Qed.

(** What the corrector computes on eight digits. *)
Lemma corregir_fecha_ocr_digits c1 c2 c3 c4 c5 c6 c7 c8 :
  forallb is_digit [c1; c2; c3; c4; c5; c6; c7; c8] = true ->
  let dia := dia_corregido [c1; c2] in
  let mes := mes_corregido [c3; c4] in
  let anio := anio_corregido [c5; c6; c7; c8] in
  corregir_fecha_ocr [c1; c2; c3; c4; c5; c6; c7; c8] =
  Ret (if Calendar.check_date_fields (valor anio) (valor mes) (valor dia)
       then Some (fmt_fecha dia mes anio) else None).
Proof.
  intros H dia mes anio. cbn [forallb] in H.
  repeat (apply andb_prop in H as [? H]).
  assert (Hd : forallb is_digit dia = true) by now apply dia_corregido_digits.
  assert (Hm : forallb is_digit mes = true)
    by (apply mes_corregido_digits; cbn [forallb]; now rewrite H2, H3).
  assert (Hy : forallb is_digit anio = true)
    by (apply anio_corregido_digits; cbn [forallb];
        now rewrite H4, H5, H6, H7).
  unfold corregir_fecha_ocr.
  cbn [length Nat.eqb negb slice skipn firstn Nat.sub].
  assert (Hi : int [c1; c2] = Some (valor [c1; c2])).
  { apply int_digit_string; [discriminate|]. cbn [forallb]. now rewrite H0, H1. }
  match goal with
  | |- match ?X with Ret _ => _ | Raise _ => _ end = _ =>
      replace X with (Ret dia)
  end.
  2:{ rewrite Hi. subst dia. unfold dia_corregido, slice.
      destruct (startswith (lit "3") [c1; c2]); cbn [andb]; [|reflexivity].
      destruct (31 <? valor [c1; c2]); reflexivity. }
  fold (mes_corregido [c3; c4]). fold (anio_corregido [c5; c6; c7; c8]).
  fold mes. fold anio.
  rewrite (int_digit_string anio), (int_digit_string mes),
    (int_digit_string dia);
    try assumption;
    try apply dia_corregido_nonempty; try apply mes_corregido_nonempty;
    try apply anio_corregido_nonempty.
  unfold Calendar.make.
  destruct (Calendar.check_date_fields _ _ _); reflexivity.
Qed.

Lemma length_8_inv (s : str) :
  length s = 8%nat ->
  exists c1 c2 c3 c4 c5 c6 c7 c8, s = [c1; c2; c3; c4; c5; c6; c7; c8].
Proof.
  intros H.
  do 8 (destruct s as [|? s]; [discriminate H|]).
  destruct s; [|discriminate H]. repeat eexists.
Qed.

(** On eight digits the corrector never raises. *)
Lemma corregir_fecha_ocr_returns s :
  length s = 8%nat -> forallb is_digit s = true ->
  exists r, corregir_fecha_ocr s = Ret r.
Proof.
  intros Hl Hd.
  destruct (length_8_inv s Hl) as (c1&c2&c3&c4&c5&c6&c7&c8&->).
  rewrite (corregir_fecha_ocr_digits _ _ _ _ _ _ _ _ Hd). eauto.
Qed.

(** C1, as amended: a string that is not of eight characters gives
    none; on a string of eight decimal digits, after the day, month and
    year repairs, the corrector returns the repaired date as dd/mm/yyyy
    when the repaired day, month and year form a real Gregorian date, and
    none when they do not; and "35112002" gives "05/11/2002". *)
Theorem corregir_fecha_ocr_spec (s : str) :
  (length s <> 8%nat -> corregir_fecha_ocr s = Ret None)
  /\ (length s = 8%nat -> forallb is_digit s = true ->
      let dia := dia_corregido (slice 0 2 s) in
      let mes := mes_corregido (slice 2 4 s) in
      let anio := anio_corregido (slice 4 8 s) in
      (fecha_real (valor anio) (valor mes) (valor dia) ->
       corregir_fecha_ocr s
       = Ret (Some (dia ++ lit "/" ++ mes ++ lit "/" ++ anio)))
      /\ (~ fecha_real (valor anio) (valor mes) (valor dia) ->
          corregir_fecha_ocr s = Ret None))
  /\ corregir_fecha_ocr (lit "35112002") = Ret (Some (lit "05/11/2002")).
Proof.
  split; [|split; [|reflexivity]].
  - intros H. unfold corregir_fecha_ocr.
    destruct (length s =? 8)%nat eqn:E; [|reflexivity].
    apply Nat.eqb_eq in E. contradiction.
  - intros Hl Hd.
    destruct (length_8_inv s Hl) as (c1&c2&c3&c4&c5&c6&c7&c8&->).
    pose proof (corregir_fecha_ocr_digits _ _ _ _ _ _ _ _ Hd) as Hc.
    cbv zeta in Hc |- *. cbn [slice skipn firstn Nat.sub]. rewrite Hc.
    set (dia := dia_corregido [c1; c2]).
    set (mes := mes_corregido [c3; c4]).
    set (anio := anio_corregido [c5; c6; c7; c8]).
    pose proof (check_date_fields_iff (valor anio) (valor mes) (valor dia))
      as Hiff.
    destruct (Calendar.check_date_fields _ _ _); split; intros Hr.
    + reflexivity.
    + exfalso. apply Hr, Hiff. reflexivity.
    + apply Hiff in Hr. discriminate.
    + reflexivity.
Qed.

End Corrector.

(** * The birth-date candidates *)
Section Candidates.
Context {U : UnicodeDB}.
Import Re ReFacts.

Lemma run_seq r1 r2 st : run (Seq r1 r2) st = flat_map (run r2) (run r1 st).
Proof. reflexivity. Qed.

Lemma run_group r st :
  run (Group r) st =
  List.map
    (fun st' =>
       mk_mstate (prev st') (rest st')
         (Some (firstn (length (rest st) - length (rest st')) (rest st))))
    (run r st).
Proof. reflexivity. Qed.

Lemma run_boundary w st :
  run (Boundary w) st =
  if xorb (at_word w (prev st)) (at_word w (hd_error (rest st)))
  then [st] else [].
Proof. reflexivity. Qed.

Lemma prev_after_last (p : char -> bool) pv l :
  l <> [] -> forallb p l = true ->
  exists c, prev_after pv l = Some c /\ p c = true.
Proof.
  revert pv; induction l as [|x l IH]; intros pv Hne H; [congruence|].
  simpl in H. apply andb_prop in H as [Hx Hl].
  destruct l as [|y l].
  - exists x. split; [reflexivity | exact Hx].
  - apply (IH (Some x)); [discriminate | exact Hl].
Qed.

Lemma firstn_8_consumed (s : str) :
  (8 <= length s)%nat ->
  firstn (length s - length (skipn 8 s)) s = firstn 8 s.
Proof. intros H. rewrite length_skipn. f_equal. lia. Qed.

(** What [\d{8}] in a group does at a position. *)
Lemma run_group_digit8 st :
  run (Group digit8) st =
  if ((8 <=? length (rest st))%nat && forallb is_digit (firstn 8 (rest st)))%bool
  then [mk_mstate (prev_after (prev st) (firstn 8 (rest st)))
                  (skipn 8 (rest st)) (Some (firstn 8 (rest st)))]
  else [].
Proof.
  rewrite run_group. unfold digit8. rewrite run_rep_chr.
  destruct (8 <=? length (rest st))%nat eqn:E; [|reflexivity].
  destruct (forallb is_digit (firstn 8 (rest st))); [|reflexivity].
  cbn [andb List.map prev rest]. apply Nat.leb_le in E.
  now rewrite firstn_8_consumed.
Qed.

(** A position of the text where a candidate starts: eight digits, with
    no word character just before and none just after. *)
Definition es_candidato (pv : option char) (s : str) : bool :=
  (negb (at_word is_word pv)
   && (8 <=? length s)%nat && forallb is_digit (firstn 8 s)
   && negb (at_word is_word (hd_error (skipn 8 s))))%bool.

(** The candidates of a text, by position. *)
Fixpoint candidatos_desde (pv : option char) (s : str) : list str :=
  (if es_candidato pv s then [firstn 8 s] else [])
  ++ match s with
     | c :: t => candidatos_desde (Some c) t
     | [] => []
     end.

Definition candidatos_fecha (texto : str) : list str :=
  candidatos_desde None texto.

Lemma digits_hd_word (s : str) :
  (8 <=? length s)%nat = true -> forallb is_digit (firstn 8 s) = true ->
  exists c t, s = c :: t /\ is_digit c = true.
Proof.
  destruct s as [|c t]; [discriminate|].
  intros _ H. simpl in H. apply andb_prop in H as [H _]. eauto.
Qed.

Lemma match_at_re_fecha pv s :
  match_at re_fecha pv s =
  if es_candidato pv s
  then Some (mk_mstate (prev_after pv (firstn 8 s)) (skipn 8 s)
                       (Some (firstn 8 s)))
  else None.
Proof.
  unfold match_at, re_fecha, es_candidato.
  rewrite run_seq, run_boundary. cbn [prev rest].
  destruct (8 <=? length s)%nat eqn:El;
    [destruct (forallb is_digit (firstn 8 s)) eqn:Ed|].
  - destruct (digits_hd_word s El Ed) as (c & t & -> & Hc).
    cbn [hd_error at_word]. rewrite (digit_is_word c Hc).
    destruct (at_word is_word pv); cbn [xorb negb andb flat_map];
      [reflexivity|].
    rewrite run_seq, run_group_digit8. cbn [rest prev].
    rewrite El, Ed. cbn [andb flat_map]. rewrite run_boundary.
    cbn [prev rest].
    destruct (prev_after_last is_digit pv (firstn 8 (c :: t)))
      as (z & -> & Hz); [discriminate | exact Ed |].
    cbn [at_word]. rewrite (digit_is_word z Hz).
    destruct (at_word is_word (hd_error (skipn 8 (c :: t))));
      reflexivity.
  - rewrite !andb_false_r. cbn [andb].
    destruct (xorb _ _); [|reflexivity].
    cbn [flat_map]. rewrite run_seq, run_group_digit8. cbn [rest].
    rewrite El, Ed. reflexivity.
  - rewrite !andb_false_r. cbn [andb].
    destruct (xorb _ _); [|reflexivity].
    cbn [flat_map]. rewrite run_seq, run_group_digit8. cbn [rest].
    rewrite El. reflexivity.
Qed.

Lemma es_candidato_nil pv : es_candidato pv [] = false.
Proof. unfold es_candidato. cbn. now rewrite andb_false_r. Qed.

Lemma es_candidato_word pv s :
  at_word is_word pv = true -> es_candidato pv s = false.
Proof. unfold es_candidato. now intros ->. Qed.

(** While the matcher steps over the digits of a match, no candidate
    starts: the scan and the positional description agree. *)
Lemma findall_from_re_fecha s :
  forall k pv,
    (k = 0%nat
     \/ (at_word is_word pv = true /\ (k <= length s)%nat
         /\ forallb is_digit (firstn k s) = true)) ->
    findall_from re_fecha k pv s = candidatos_desde pv s.
Proof.
  induction s as [|c t IH]; intros k pv Hk.
  - destruct k as [|k].
    + cbn [findall_from candidatos_desde]. rewrite match_at_re_fecha.
      now rewrite es_candidato_nil.
    + destruct Hk as [Hk | (_ & Hk & _)]; [discriminate | simpl in Hk; lia].
  - destruct k as [|k].
    + cbn [findall_from candidatos_desde]. rewrite match_at_re_fecha.
      destruct (es_candidato pv (c :: t)) eqn:E.
      * cbn [group1 grp rest app]. f_equal.
        unfold es_candidato in E.
        apply andb_prop in E as [E _]. apply andb_prop in E as [E Hd].
        apply andb_prop in E as [_ Hl]. apply Nat.leb_le in Hl.
        rewrite length_skipn. simpl in Hl.
        replace (length (c :: t) - (length (c :: t) - 8) - 1)%nat
          with 7%nat by (cbn [length]; lia).
        apply IH. right.
        change (firstn 8 (c :: t)) with (c :: firstn 7 t) in Hd.
        simpl in Hd. apply andb_prop in Hd as [Hc Hd].
        cbn [at_word]. rewrite (digit_is_word c Hc).
        repeat split; [lia | exact Hd].
      * cbn [app]. apply IH. now left.
    + destruct Hk as [Hk | (Hw & Hl & Hd)]; [discriminate|].
      cbn [findall_from candidatos_desde].
      rewrite (es_candidato_word _ _ Hw). cbn [app].
      apply IH. simpl in Hd. apply andb_prop in Hd as [Hc Hd].
      destruct k as [|k]; [now left | right].
      cbn [at_word]. rewrite (digit_is_word c Hc).
      simpl in Hl. repeat split; [lia | exact Hd].
Qed.

(** [re.findall(r'\b(\d{8})\b', texto)] lists the candidates. *)
Lemma findall_re_fecha texto :
  findall re_fecha texto = candidatos_fecha texto.
Proof. apply findall_from_re_fecha. now left. Qed.

Lemma candidatos_desde_digits pv s x :
  In x (candidatos_desde pv s) ->
  length x = 8%nat /\ forallb is_digit x = true.
Proof.
  revert pv; induction s as [|c t IH]; intros pv; cbn [candidatos_desde];
    rewrite in_app_iff; intros [H | H].
  - rewrite es_candidato_nil in H. destruct H.
  - destruct H.
  - destruct (es_candidato pv (c :: t)) eqn:E; [|destruct H].
    destruct H as [<- | []]. unfold es_candidato in E.
    apply andb_prop in E as [E _]. apply andb_prop in E as [E Hd].
    apply andb_prop in E as [_ Hl]. apply Nat.leb_le in Hl.
    split; [|exact Hd]. rewrite length_firstn. lia.
  - eapply IH; eauto.
Qed.

End Candidates.

(** * The birth-date loop *)
Section BirthDate.
Context {U : UnicodeDB}.
Import Re ReFacts.

Lemma split_on_no_sep sep (a : str) :
  forallb (fun c => negb (char_eqb c sep)) a = true ->
  split_on sep a = [a].
Proof.
  induction a as [|c a IH]; simpl; [reflexivity|].
  intros H. apply andb_prop in H as [Hc Ha].
  apply negb_true_iff in Hc. rewrite Hc, (IH Ha). reflexivity.
Qed.

Lemma split_on_app_sep sep (a b : str) :
  forallb (fun c => negb (char_eqb c sep)) a = true ->
  split_on sep (a ++ sep :: b) = a :: split_on sep b.
Proof.
  induction a as [|c a IH]; simpl.
  - intros _. unfold char_eqb. now rewrite N.eqb_refl.
  - intros H. apply andb_prop in H as [Hc Ha].
    apply negb_true_iff in Hc. rewrite Hc, (IH Ha). reflexivity.
Qed.

Lemma digits_no_slash (a : str) :
  forallb is_digit a = true ->
  forallb (fun c => negb (char_eqb c slash)) a = true.
Proof.
  induction a as [|c a IH]; simpl; [reflexivity|].
  intros H. apply andb_prop in H as [Hc Ha]. rewrite (IH Ha), andb_true_r.
  apply negb_true_iff, not_true_is_false. intros E.
  apply N.eqb_eq in E. subst c. discriminate Hc.
Qed.

Lemma split_fmt_fecha dia mes anio :
  forallb is_digit dia = true -> forallb is_digit mes = true ->
  forallb is_digit anio = true ->
  split_on slash (fmt_fecha dia mes anio) = [dia; mes; anio].
Proof.
  intros Hd Hm Ha. unfold fmt_fecha.
  rewrite split_on_app_sep by now apply digits_no_slash.
  rewrite split_on_app_sep by now apply digits_no_slash.
  rewrite split_on_no_sep by now apply digits_no_slash.
  reflexivity.
Qed.

(** The repaired parts of a candidate and the date they denote. *)
Definition dia_de (raw : str) : str := dia_corregido (slice 0 2 raw).
Definition mes_de (raw : str) : str := mes_corregido (slice 2 4 raw).
Definition anio_de (raw : str) : str := anio_corregido (slice 4 8 raw).

Definition fecha_de (raw : str) : Calendar.datetime :=
  Calendar.mk_datetime (valor (anio_de raw)) (valor (mes_de raw))
    (valor (dia_de raw)) 0.

Definition fecha_valida (raw : str) : bool :=
  Calendar.check_date_fields (valor (anio_de raw)) (valor (mes_de raw))
    (valor (dia_de raw)).

(** The age the loop derives from a candidate. *)
Definition edad_de (hoy : Calendar.datetime) (raw : str) : Z :=
  edad_en hoy (fecha_de raw).

Definition aceptable (hoy : Calendar.datetime) (raw : str) : bool :=
  (fecha_valida raw && (0 <=? edad_de hoy raw) && (edad_de hoy raw <=? 120))%bool.

Definition fecha_texto (raw : str) : str :=
  fmt_fecha (dia_de raw) (mes_de raw) (anio_de raw).

Definition fecha_iso (raw : str) : str :=
  anio_de raw ++ guion :: mes_de raw ++ guion :: dia_de raw.

Definition es_8_digitos (raw : str) : Prop :=
  length raw = 8%nat /\ forallb is_digit raw = true.

Lemma corregir_fecha_ocr_8 raw :
  es_8_digitos raw ->
  corregir_fecha_ocr raw =
  Ret (if fecha_valida raw then Some (fecha_texto raw) else None).
Proof.
  intros [Hl Hd].
  destruct (length_8_inv raw Hl) as (c1&c2&c3&c4&c5&c6&c7&c8&->).
  exact (corregir_fecha_ocr_digits _ _ _ _ _ _ _ _ Hd).
Qed.

Lemma partes_digits raw :
  es_8_digitos raw ->
  forallb is_digit (dia_de raw) = true /\ dia_de raw <> []
  /\ forallb is_digit (mes_de raw) = true /\ mes_de raw <> []
  /\ forallb is_digit (anio_de raw) = true /\ anio_de raw <> [].
Proof.
  intros [Hl Hd].
  destruct (length_8_inv raw Hl) as (c1&c2&c3&c4&c5&c6&c7&c8&->).
  cbn [forallb] in Hd. repeat (apply andb_prop in Hd as [? Hd]).
  unfold dia_de, mes_de, anio_de. cbn [slice skipn firstn Nat.sub].
  repeat split.
  - now apply dia_corregido_digits.
  - apply dia_corregido_nonempty.
  - apply mes_corregido_digits. cbn [forallb]. now rewrite H1, H2.
  - apply mes_corregido_nonempty.
  - apply anio_corregido_digits. cbn [forallb]. now rewrite H3, H4, H5, H6.
  - apply anio_corregido_nonempty.
Qed.

(** One turn of the loop on a candidate of eight digits. *)
Lemma extraer_fecha_cons hoy raw otras d :
  es_8_digitos raw ->
  extraer_fecha hoy (raw :: otras) d =
  if aceptable hoy raw
  then Ret (set_fecha (fecha_texto raw) (fecha_iso raw) (edad_de hoy raw) d)
  else extraer_fecha hoy otras d.
Proof.
  intros H8. cbn [extraer_fecha]. rewrite (corregir_fecha_ocr_8 raw H8).
  destruct (partes_digits raw H8) as (Hd & Hdn & Hm & Hmn & Ha & Han).
  unfold aceptable. destruct (fecha_valida raw) eqn:Ev; [|reflexivity].
  cbn [andb].
  destruct (fecha_texto raw) as [|x f] eqn:Ef.
  { unfold fecha_texto, fmt_fecha in Ef. apply app_eq_nil in Ef as [Ef _].
    contradiction. }
  rewrite <- Ef. unfold fecha_texto at 1.
  rewrite (split_fmt_fecha _ _ _ Hd Hm Ha).
  rewrite (int_digit_string _ Han Ha), (int_digit_string _ Hmn Hm),
    (int_digit_string _ Hdn Hd).
  unfold Calendar.make. unfold fecha_valida in Ev. rewrite Ev.
  fold (fecha_de raw). fold (edad_de hoy raw).
  reflexivity.
Qed.

(** The first candidate the loop accepts. *)
Fixpoint primera_aceptable (hoy : Calendar.datetime) (cands : list str)
    : option str :=
  match cands with
  | [] => None
  | raw :: otras =>
      if aceptable hoy raw then Some raw else primera_aceptable hoy otras
  end.

Definition con_fecha (hoy : Calendar.datetime) (o : option str) (d : datos)
    : datos :=
  match o with
  | Some raw =>
      set_fecha (fecha_texto raw) (fecha_iso raw) (edad_de hoy raw) d
  | None => d
  end.

(** On candidates of eight digits the loop never raises, and stops at
    the first acceptable one. *)
Lemma extraer_fecha_eq hoy cands d :
  (forall x, In x cands -> es_8_digitos x) ->
  extraer_fecha hoy cands d
  = Ret (con_fecha hoy (primera_aceptable hoy cands) d).
Proof.
  induction cands as [|raw otras IH]; intros H; [reflexivity|].
  rewrite extraer_fecha_cons by (apply H; now left).
  cbn [primera_aceptable]. destruct (aceptable hoy raw); [reflexivity|].
  apply IH. intros x Hx. apply H. now right.
Qed.

Lemma primera_aceptable_first hoy antes raw despues :
  (forall x, In x antes -> aceptable hoy x = false) ->
  aceptable hoy raw = true ->
  primera_aceptable hoy (antes ++ raw :: despues) = Some raw.
Proof.
  intros Ha Hr. induction antes as [|x antes IH]; simpl.
  - now rewrite Hr.
  - rewrite (Ha x) by now left. apply IH. intros y Hy. apply Ha. now right.
Qed.

Lemma primera_aceptable_none hoy cands :
  (forall x, In x cands -> aceptable hoy x = false) ->
  primera_aceptable hoy cands = None.
Proof.
  induction cands as [|x cands IH]; intros H; simpl; [reflexivity|].
  rewrite (H x) by now left. apply IH. intros y Hy. apply H. now right.
Qed.

(** The parser never raises: it is the composition of its extractors. *)
Lemma parsear_dni_eq hoy texto :
  parsear_dni hoy texto =
  Ret (armar_nombre_completo
         (extraer_sexo texto
            (con_fecha hoy (primera_aceptable hoy (candidatos_fecha texto))
               (extraer_nombres (lineas_de texto)
                  (extraer_apellido_materno (lineas_de texto)
                     (extraer_apellido_paterno (lineas_de texto)
                        (extraer_dni texto datos_vacio))))))).
Proof.
  unfold parsear_dni. rewrite findall_re_fecha.
  rewrite extraer_fecha_eq; [reflexivity|].
  intros x Hx. exact (candidatos_desde_digits _ _ _ Hx).
Qed.

End BirthDate.

(** * The record: which extractor writes which key *)
Section Keys.
Context {U : UnicodeDB}.

Ltac by_cases :=
  repeat match goal with
         | |- context [match ?x with _ => _ end] => destruct x
         end;
  auto.

Lemma extraer_dni_keeps {A} (f : datos -> A) texto d :
  (forall v d, f (set_dni v d) = f d) -> f (extraer_dni texto d) = f d.
Proof. intros H. unfold extraer_dni. by_cases. Qed.

Lemma extraer_apellido_paterno_keeps {A} (f : datos -> A) lineas d :
  (forall v d, f (set_apellido_paterno v d) = f d) ->
  f (extraer_apellido_paterno lineas d) = f d.
Proof. intros H. unfold extraer_apellido_paterno. by_cases. Qed.

Lemma extraer_apellido_materno_keeps {A} (f : datos -> A) lineas d :
  (forall v d, f (set_apellido_materno v d) = f d) ->
  f (extraer_apellido_materno lineas d) = f d.
Proof. intros H. unfold extraer_apellido_materno. by_cases. Qed.

Lemma extraer_nombres_keeps {A} (f : datos -> A) lineas d :
  (forall v d, f (set_nombres v d) = f d) ->
  f (extraer_nombres lineas d) = f d.
Proof. intros H. unfold extraer_nombres. by_cases. Qed.

Lemma con_fecha_keeps {A} (f : datos -> A) hoy o d :
  (forall v w e d, f (set_fecha v w e d) = f d) ->
  f (con_fecha hoy o d) = f d.
Proof. intros H. unfold con_fecha. by_cases. Qed.

Lemma extraer_sexo_keeps {A} (f : datos -> A) texto d :
  (forall v w d, f (set_sexo v w d) = f d) -> f (extraer_sexo texto d) = f d.
Proof. intros H. unfold extraer_sexo. by_cases. Qed.

Lemma armar_nombre_completo_keeps {A} (f : datos -> A) d :
  (forall v d, f (set_nombre_completo v d) = f d) ->
  f (armar_nombre_completo d) = f d.
Proof. intros H. unfold armar_nombre_completo. by_cases. Qed.

End Keys.

(** Rewrites a key of the parsed record down to the extractor that
    writes it. *)
Ltac key_through :=
  repeat first
    [ rewrite armar_nombre_completo_keeps by reflexivity
    | rewrite extraer_sexo_keeps by reflexivity
    | rewrite con_fecha_keeps by reflexivity
    | rewrite extraer_nombres_keeps by reflexivity
    | rewrite extraer_apellido_materno_keeps by reflexivity
    | rewrite extraer_apellido_paterno_keeps by reflexivity
    | rewrite extraer_dni_keeps by reflexivity ].

Section BirthDateClaims.
Context {U : UnicodeDB}.

(** A candidate qualifies when the corrector returns a date for it and
    the age derived from that date is within bounds. *)
Definition acepta (hoy : Calendar.datetime) (raw : str) : Prop :=
  (exists f, corregir_fecha_ocr raw = Ret (Some f))
  /\ 0 <= edad_de hoy raw <= 120.

Lemma acepta_iff hoy raw :
  es_8_digitos raw -> (acepta hoy raw <-> aceptable hoy raw = true).
Proof.
  intros H8. unfold acepta, aceptable.
  rewrite (corregir_fecha_ocr_8 raw H8), !andb_true_iff, !Z.leb_le.
  destruct (fecha_valida raw); split.
  - intros [_ ?]. repeat split; lia.
  - intros [[_ ?] ?]. split; [eauto | lia].
  - intros [[f Hf] _]. discriminate.
  - intros [[? _] _]. discriminate.
Qed.

Lemma fecha_nacimiento_parsear hoy texto :
  exists d,
    parsear_dni hoy texto = Ret d
    /\ fecha_nacimiento d
       = option_map fecha_texto
           (primera_aceptable hoy (candidatos_fecha texto))
    /\ edad d
       = option_map (edad_de hoy)
           (primera_aceptable hoy (candidatos_fecha texto)).
Proof.
  eexists. split; [apply parsear_dni_eq|].
  split.
  - rewrite armar_nombre_completo_keeps, extraer_sexo_keeps by reflexivity.
    destruct (primera_aceptable hoy (candidatos_fecha texto));
      cbn [con_fecha option_map]; [reflexivity|].
    key_through. reflexivity.
  - rewrite armar_nombre_completo_keeps, extraer_sexo_keeps by reflexivity.
    destruct (primera_aceptable hoy (candidatos_fecha texto));
      cbn [con_fecha option_map]; [reflexivity|].
    key_through. reflexivity.
Qed.

(** Each candidate is a maximal run of exactly eight digits: the
    characters next to it are not digits. *)
Lemma es_candidato_maximal pv s :
  es_candidato pv s = true ->
  Re.at_word is_digit pv = false
  /\ Re.at_word is_digit (hd_error (skipn 8 s)) = false.
Proof.
  unfold es_candidato. intros H.
  apply andb_prop in H as [H Hn]. apply andb_prop in H as [H _].
  apply andb_prop in H as [Hp _].
  apply negb_true_iff in Hp, Hn.
  split.
  - destruct pv as [c|]; [|reflexivity]. cbn in *.
    apply not_true_is_false. intros Hc.
    rewrite (digit_is_word c Hc) in Hp. discriminate.
  - destruct (hd_error (skipn 8 s)) as [c|]; [|reflexivity]. cbn in *.
    apply not_true_is_false. intros Hc.
    rewrite (digit_is_word c Hc) in Hn. discriminate.
Qed.

(** The maximal runs of digits of a text, in order: [run] holds the
    digits of the run being read, last first. *)
Fixpoint corridas (run : str) (s : str) : list str :=
  match s with
  | [] => match run with [] => [] | _ => [rev run] end
  | c :: t =>
      if is_digit c then corridas (c :: run) t
      else match run with [] => [] | _ => [rev run] end ++ corridas [] t
  end.

(** All maximal runs of exactly eight digits, as the claim words the
    candidates. *)
Definition corridas_de_8 (texto : str) : list str :=
  filter (fun r => (length r =? 8)%nat) (corridas [] texto).

End BirthDateClaims.

(** * The document number *)
Section DocumentNumber.
Context {U : UnicodeDB}.
Import Re ReFacts.

Lemma run_star p st :
  run (Star p) st = star_run p (prev st) (rest st) (grp st).
Proof. reflexivity. Qed.

(** Eight digits at the head of a text. *)
Definition ocho_digitos (s : str) : option str :=
  if ((8 <=? length s)%nat && forallb is_digit (firstn 8 s))%bool
  then Some (firstn 8 s) else None.

Lemma ocho_digitos_iff s d :
  ocho_digitos s = Some d <-> exists t, s = d ++ t /\ es_8_digitos d.
Proof.
  unfold ocho_digitos, es_8_digitos. split.
  - destruct (8 <=? length s)%nat eqn:El; [|discriminate].
    destruct (forallb is_digit (firstn 8 s)) eqn:Ed; [|discriminate].
    cbn [andb]. intros H.
    assert (Hd : d = firstn 8 s) by congruence. subst d. clear H.
    apply Nat.leb_le in El.
    exists (skipn 8 s). rewrite firstn_skipn, length_firstn.
    repeat split; [lia | exact Ed].
  - intros (t & -> & Hl & Hd).
    rewrite length_app, <- Hl, firstn_app, firstn_all, Nat.sub_diag.
    cbn [firstn]. rewrite app_nil_r, Hd.
    replace (length d <=? length d + length t)%nat with true
      by (symmetry; apply Nat.leb_le; lia).
    reflexivity.
Qed.

Lemma match_group_digit8 pv s g :
  option_map group1 (hd_error (run (Group digit8) (mk_mstate pv s g)))
  = ocho_digitos s.
Proof.
  rewrite run_group_digit8. unfold ocho_digitos. cbn [rest].
  destruct (_ && _)%bool; reflexivity.
Qed.

Lemma group_digit8_after_space pv c t g :
  is_space c = true -> run (Group digit8) (mk_mstate pv (c :: t) g) = [].
Proof.
  intros Hc. rewrite run_group_digit8. cbn [rest firstn forallb].
  destruct (is_digit c) eqn:Ed.
  - rewrite (digit_not_space c Ed) in Hc. discriminate.
  - now rewrite andb_false_r.
Qed.

(** A text matches a pattern letter by letter. *)
Definition coincide (rel : char -> char -> bool) (patron l : str) : Prop :=
  Forall2 (fun x c => rel x c = true) patron l.

Lemma prefix_ok_iff rel patron s :
  prefix_ok (List.map rel patron) s = true <->
  exists l t, s = l ++ t /\ coincide rel patron l.
Proof.
  revert s; induction patron as [|x patron IH]; intros s; simpl.
  - split; [|reflexivity]. intros _. exists [], s. split; [reflexivity|].
    constructor.
  - destruct s as [|c s].
    + split; [discriminate|]. intros (l & t & Hs & Hl).
      inversion Hl; subst. discriminate.
    + rewrite andb_true_iff, IH. split.
      * intros (Hc & l & t & -> & Hl). exists (c :: l), t.
        split; [reflexivity | now constructor].
      * intros (l & t & Hs & Hl). inversion Hl; subst.
        injection Hs as <- ->. split; [assumption | eauto].
Qed.

Lemma coincide_length rel patron l :
  coincide rel patron l -> length l = length patron.
Proof. intros H. symmetry. exact (Forall2_length H). Qed.

(** The document-number pattern at the head of a text: the letters DNI
    in any case, any whitespace, eight digits. *)
Definition dni_en (s : str) : option str :=
  if prefix_ok (List.map ci_eq (lit "DNI")) s
  then ocho_digitos (dropwhile is_space (skipn 3 s)) else None.

Definition ocurre_dni (s d : str) : Prop :=
  exists l ws t,
    s = l ++ ws ++ d ++ t /\ coincide ci_eq (lit "DNI") l
    /\ forallb is_space ws = true /\ es_8_digitos d.

Lemma dropwhile_space_digits d t :
  es_8_digitos d -> dropwhile is_space (d ++ t) = d ++ t.
Proof.
  intros [Hl Hd]. destruct d as [|c d]; [discriminate Hl|].
  simpl in Hd. apply andb_prop in Hd as [Hc _].
  simpl. now rewrite (digit_not_space c Hc).
Qed.

Lemma dni_en_iff s d : dni_en s = Some d <-> ocurre_dni s d.
Proof.
  unfold dni_en, ocurre_dni. split.
  - destruct (prefix_ok _ s) eqn:Ep; [|discriminate].
    apply prefix_ok_iff in Ep as (l & t & -> & Hl).
    pose proof (coincide_length _ _ _ Hl) as Hlen. cbn in Hlen.
    rewrite skipn_app, Hlen. cbn [Nat.sub]. rewrite <- Hlen at 1.
    rewrite skipn_all. cbn [skipn app].
    intros Ho. apply ocho_digitos_iff in Ho as (t' & Ht & H8).
    exists l, (takewhile is_space t), t'. repeat split; try assumption.
    + now rewrite <- Ht, take_drop_while.
    + apply takewhile_all.
    + apply H8.
    + apply H8.
  - intros (l & ws & t & -> & Hl & Hws & H8).
    pose proof (coincide_length _ _ _ Hl) as Hlen. cbn in Hlen.
    replace (prefix_ok (List.map ci_eq (lit "DNI")) (l ++ ws ++ d ++ t))
      with true by (symmetry; apply prefix_ok_iff; eauto).
    rewrite skipn_app, Hlen. cbn [Nat.sub]. rewrite <- Hlen at 1.
    rewrite skipn_all. cbn [skipn app].
    rewrite (dropwhile_app _ _ _ Hws), (dropwhile_space_digits _ _ H8).
    apply ocho_digitos_iff. eauto.
Qed.

Lemma match_at_re_dni pv s :
  option_map group1 (match_at re_dni pv s) = dni_en s.
Proof.
  unfold match_at, re_dni, dni_en, ilits.
  rewrite run_seq, run_chars. cbn [rest prev grp].
  destruct (prefix_ok _ s); [|reflexivity].
  cbn [flat_map]. rewrite app_nil_r, run_seq, run_star. cbn [rest prev grp].
  rewrite star_then by (intros; now apply group_digit8_after_space).
  rewrite length_map. apply match_group_digit8.
Qed.

(** The MRZ pattern at the head of a text. *)
Definition mrz_en (s : str) : option str :=
  if prefix_ok (List.map char_eqb (lit "PER")) s
  then ocho_digitos (skipn 3 s) else None.

Definition ocurre_mrz (s d : str) : Prop :=
  exists t, s = lit "PER" ++ d ++ t /\ es_8_digitos d.

Lemma coincide_eq patron l : coincide char_eqb patron l -> l = patron.
Proof.
  induction 1 as [|x c patron l Hc _ IH]; [reflexivity|].
  apply N.eqb_eq in Hc. now subst.
Qed.

Lemma coincide_refl patron : coincide char_eqb patron patron.
Proof.
  induction patron; constructor; [apply N.eqb_refl | assumption].
Qed.

Lemma mrz_en_iff s d : mrz_en s = Some d <-> ocurre_mrz s d.
Proof.
  unfold mrz_en, ocurre_mrz. split.
  - destruct (prefix_ok _ s) eqn:Ep; [|discriminate].
    apply prefix_ok_iff in Ep as (l & t & -> & Hl).
    apply coincide_eq in Hl. subst l.
    change (skipn 3 (lit "PER" ++ t)) with t.
    intros Ho. apply ocho_digitos_iff in Ho as (t' & -> & H8). eauto.
  - intros (t & -> & H8).
    replace (prefix_ok (List.map char_eqb (lit "PER")) (lit "PER" ++ d ++ t))
      with true
      by (symmetry; apply prefix_ok_iff; eauto using coincide_refl).
    change (skipn 3 (lit "PER" ++ d ++ t)) with (d ++ t).
    apply ocho_digitos_iff. eauto.
Qed.

Lemma match_at_re_mrz_dni pv s :
  option_map group1 (match_at re_mrz_dni pv s) = mrz_en s.
Proof.
  unfold match_at, re_mrz_dni, mrz_en, lits.
  rewrite run_seq, run_chars. cbn [rest prev grp].
  destruct (prefix_ok _ s); [|reflexivity].
  cbn [flat_map]. rewrite app_nil_r, length_map.
  apply match_group_digit8.
Qed.

(** The leftmost place of a text where a head pattern occurs. *)
Definition primera_ocurrencia (ocurre : str -> str -> Prop) (texto d : str)
    : Prop :=
  exists antes s,
    texto = antes ++ s /\ ocurre s d
    /\ forall antes' s' d',
         texto = antes' ++ s' -> (length antes' < length antes)%nat ->
         ~ ocurre s' d'.

(** Searching for a pattern whose matches at a position are described by
    [en] captures the group of its leftmost occurrence. *)
Lemma search_captura r (en : str -> option str) ocurre texto d :
  (forall pv s, option_map group1 (match_at r pv s) = en s) ->
  (forall s x, en s = Some x <-> ocurre s x) ->
  option_map group1 (search r texto) = Some d
  <-> primera_ocurrencia ocurre texto d.
Proof.
  intros Hat Hen. unfold search, primera_ocurrencia. split.
  - destruct (search_from r None texto) as [m|] eqn:Es; [|discriminate].
    intros [= Hg]. apply search_from_spec in Es as (a & b & -> & Hm & Hmin).
    exists a, b. split; [reflexivity|]. split.
    + apply Hen. rewrite <- (Hat (prev_after None a)), Hm. now subst.
    + intros a' b' d' Hs Hl Ho. apply Hen in Ho.
      rewrite <- (Hat (prev_after None a')), (Hmin a' b' Hs Hl) in Ho.
      discriminate.
  - intros (a & b & -> & Ho & Hmin).
    apply Hen in Ho. rewrite <- (Hat (prev_after None a)) in Ho.
    destruct (match_at r (prev_after None a) b) as [m|] eqn:Em;
      [|discriminate].
    replace (search_from r None (a ++ b)) with (Some m); [exact Ho|].
    symmetry. apply search_from_spec. exists a, b.
    repeat split; [exact Em|].
    intros a' b' Hs Hl.
    destruct (match_at r (prev_after None a') b') as [m'|] eqn:Em';
      [|reflexivity].
    exfalso. apply (Hmin a' b' (group1 m') Hs Hl), Hen.
    now rewrite <- (Hat (prev_after None a')), Em'.
Qed.

(** The candidate document number: group 1 of the DNI search. *)
Definition dni_capturado (texto : str) : option str :=
  option_map group1 (search re_dni texto).

(** The MRZ document number: group 1 of the PER search. *)
Definition mrz_capturado (texto : str) : option str :=
  option_map group1 (search re_mrz_dni texto).

Lemma dni_capturado_iff texto d :
  dni_capturado texto = Some d <-> primera_ocurrencia ocurre_dni texto d.
Proof.
  apply (search_captura re_dni dni_en);
    [apply match_at_re_dni | apply dni_en_iff].
Qed.

Lemma mrz_capturado_iff texto d :
  mrz_capturado texto = Some d <-> primera_ocurrencia ocurre_mrz texto d.
Proof.
  apply (search_captura re_mrz_dni mrz_en);
    [apply match_at_re_mrz_dni | apply mrz_en_iff].
Qed.

(** The extractor in terms of the two captures. *)
Lemma extraer_dni_eq texto d :
  dni (extraer_dni texto d) =
  match dni_capturado texto with
  | Some dni_raw =>
      if startswith (lit "00") dni_raw
      then match mrz_capturado texto with
           | Some mrz => Some mrz
           | None => Some dni_raw
           end
      else Some dni_raw
  | None => dni d
  end.
Proof.
  unfold extraer_dni, dni_capturado, mrz_capturado.
  destruct (search re_dni texto) as [m|]; [|reflexivity].
  cbn [option_map]. destruct (startswith _ _); [|reflexivity].
  destruct (search re_mrz_dni texto); reflexivity.
Qed.

Lemma dni_parsear hoy texto :
  exists d, parsear_dni hoy texto = Ret d
            /\ dni d = dni (extraer_dni texto datos_vacio).
Proof.
  eexists. split; [apply parsear_dni_eq|]. key_through. reflexivity.
Qed.

End DocumentNumber.

Section DocumentNumberClaims.
Context {U : UnicodeDB}.
Import Re ReFacts.

Lemma search_from_none r pv s :
  search_from r pv s = None <->
  forall a b, s = a ++ b -> match_at r (prev_after pv a) b = None.
Proof.
  revert pv; induction s as [|c t IH]; intros pv; cbn [search_from].
  - destruct (match_at r pv []) eqn:E; split; try discriminate.
    + intros H. specialize (H [] [] eq_refl). simpl in H. congruence.
    + intros _ a b Hs. symmetry in Hs. apply app_eq_nil in Hs as [-> ->].
      exact E.
    + reflexivity.
  - destruct (match_at r pv (c :: t)) eqn:E.
    + split; [discriminate|]. intros H.
      specialize (H [] (c :: t) eq_refl). simpl in H. congruence.
    + rewrite IH. split.
      * intros H a b Hs. destruct a as [|x a]; simpl in Hs.
        -- subst b. exact E.
        -- injection Hs as <- ->. simpl. now apply H.
      * intros H a b ->. apply (H (c :: a) b). reflexivity.
Qed.

(** A text in which a head pattern occurs somewhere. *)
Definition contiene (ocurre : str -> str -> Prop) (texto : str) : Prop :=
  exists antes s d, texto = antes ++ s /\ ocurre s d.

Lemma search_contiene r (en : str -> option str) ocurre texto :
  (forall pv s, option_map group1 (match_at r pv s) = en s) ->
  (forall s x, en s = Some x <-> ocurre s x) ->
  option_map group1 (search r texto) = None <-> ~ contiene ocurre texto.
Proof.
  intros Hat Hen. unfold search, contiene. split.
  - destruct (search_from r None texto) eqn:Es; [discriminate|]. intros _.
    intros (a & b & d & Hs & Ho). apply Hen in Ho.
    rewrite <- (Hat (prev_after None a)) in Ho.
    rewrite (proj1 (search_from_none _ _ _) Es a b Hs) in Ho. discriminate.
  - intros Hno.
    replace (search_from r None texto) with (@None mstate); [reflexivity|].
    symmetry. apply search_from_none. intros a b Hs.
    destruct (match_at r (prev_after None a) b) as [m|] eqn:Em;
      [|reflexivity].
    exfalso. apply Hno. exists a, b, (group1 m). split; [exact Hs|].
    apply Hen. now rewrite <- (Hat (prev_after None a)), Em.
Qed.

Lemma dni_capturado_none texto :
  dni_capturado texto = None <-> ~ contiene ocurre_dni texto.
Proof.
  apply (search_contiene re_dni dni_en);
    [apply match_at_re_dni | apply dni_en_iff].
Qed.

Lemma mrz_capturado_none texto :
  mrz_capturado texto = None <-> ~ contiene ocurre_mrz texto.
Proof.
  apply (search_contiene re_mrz_dni mrz_en);
    [apply match_at_re_mrz_dni | apply mrz_en_iff].
Qed.

Lemma primera_ocurrencia_8 ocurre texto d :
  (forall s x, ocurre s x -> es_8_digitos x) ->
  primera_ocurrencia ocurre texto d -> es_8_digitos d.
Proof. intros H (a & s & _ & Ho & _). eauto. Qed.

Lemma ocurre_dni_8 s x : ocurre_dni s x -> es_8_digitos x.
Proof. now intros (l & ws & t & _ & _ & _ & H). Qed.

Lemma ocurre_mrz_8 s x : ocurre_mrz s x -> es_8_digitos x.
Proof. now intros (t & _ & H). Qed.

(** The document number, when present, is eight digits. *)
Lemma extraer_dni_8 texto x :
  dni (extraer_dni texto datos_vacio) = Some x -> es_8_digitos x.
Proof.
  rewrite extraer_dni_eq.
  destruct (dni_capturado texto) as [raw|] eqn:Er; [|discriminate].
  apply dni_capturado_iff, (primera_ocurrencia_8 _ _ _ ocurre_dni_8) in Er.
  destruct (startswith (lit "00") raw); [|congruence].
  destruct (mrz_capturado texto) as [mrz|] eqn:Em; [|congruence].
  apply mrz_capturado_iff, (primera_ocurrencia_8 _ _ _ ocurre_mrz_8) in Em.
  congruence.
Qed.

(** C5, as amended: the extractor recognises a document number exactly
    when the text contains the letters DNI in any case, followed by any
    amount of whitespace, none included, and then by at least eight
    digits; the candidate captured is the first eight digits of the
    leftmost such place. *)
Theorem dni_reconocido hoy texto :
  exists d,
    parsear_dni hoy texto = Ret d
    /\ (dni d <> None <-> contiene ocurre_dni texto)
    /\ (forall x, dni_capturado texto = Some x
                  <-> primera_ocurrencia ocurre_dni texto x).
Proof.
  destruct (dni_parsear hoy texto) as (d & Hd & Hdni).
  exists d. split; [exact Hd|]. split; [|apply dni_capturado_iff].
  rewrite Hdni, extraer_dni_eq.
  pose proof (dni_capturado_none texto) as Hn.
  destruct (dni_capturado texto) as [raw|] eqn:Er.
  - split.
    + intros _. apply dni_capturado_iff in Er.
      destruct Er as (a & s & Hs & Ho & _). exists a, s, raw. now split.
    + intros _. destruct (startswith _ raw); [|discriminate].
      destruct (mrz_capturado texto); discriminate.
  - cbn [dni datos_vacio]. split; [congruence|].
    intros Hc. exfalso. exact (proj1 Hn eq_refl Hc).
Qed.

(** C6: when the captured candidate starts with 00, the document number
    recorded is the eight digits after the leftmost PER followed by eight
    digits, and the candidate itself only when the text holds no PER
    followed by eight digits. *)
Theorem dni_mrz hoy texto dni_raw :
  dni_capturado texto = Some dni_raw ->
  startswith (lit "00") dni_raw = true ->
  exists d,
    parsear_dni hoy texto = Ret d
    /\ (forall mrz, primera_ocurrencia ocurre_mrz texto mrz ->
                    dni d = Some mrz)
    /\ (~ contiene ocurre_mrz texto -> dni d = Some dni_raw).
Proof.
  intros Hraw H00.
  destruct (dni_parsear hoy texto) as (d & Hd & Hdni).
  exists d. split; [exact Hd|].
  rewrite Hdni, extraer_dni_eq, Hraw, H00. split.
  - intros mrz Hm. apply mrz_capturado_iff in Hm. now rewrite Hm.
  - intros Hno. apply mrz_capturado_none in Hno. now rewrite Hno.
Qed.

End DocumentNumberClaims.

(** * The assembled record *)
Section Assembly.
Context {U : UnicodeDB}.

Lemma startswith_iff p s : startswith p s = true <-> exists t, s = p ++ t.
Proof.
  revert s; induction p as [|x p IH]; intros s; simpl.
  - split; eauto.
  - destruct s as [|c s].
    + split; [discriminate | intros (t & Ht); discriminate].
    + rewrite andb_true_iff, IH. unfold char_eqb. rewrite N.eqb_eq. split.
      * intros (-> & t & ->). eauto.
      * intros (t & Ht). injection Ht as -> ->. eauto.
Qed.

(** The splitting loop on any catalog: the first entry that the
    candidate strictly extends is the one applied. *)
Lemma separar_nombres_first antes nombre despues candidato :
  (forall n, In n antes ->
             startswith n candidato = false
             \/ (length candidato <= length n)%nat) ->
  startswith nombre candidato = true ->
  (length nombre < length candidato)%nat ->
  separar_nombres (antes ++ nombre :: despues) candidato
  = nombre ++ espacio :: skipn (length nombre) candidato.
Proof.
  intros Hantes Hs Hl. induction antes as [|n antes IH]; cbn [app separar_nombres].
  - rewrite Hs. replace (length nombre <? length candidato)%nat with true
      by (symmetry; now apply Nat.ltb_lt).
    reflexivity.
  - replace (startswith n candidato && (length n <? length candidato)%nat)%bool
      with false.
    + apply IH. intros m Hm. apply Hantes. now right.
    + symmetry. apply andb_false_iff.
      destruct (Hantes n (or_introl eq_refl)) as [H | H]; [now left|].
      right. apply Nat.ltb_ge. exact H.
Qed.

Lemma separar_nombres_none catalogo candidato :
  (forall n, In n catalogo ->
             startswith n candidato = false
             \/ (length candidato <= length n)%nat) ->
  separar_nombres catalogo candidato = candidato.
Proof.
  induction catalogo as [|n catalogo IH]; intros H; cbn [separar_nombres];
    [reflexivity|].
  replace (startswith n candidato && (length n <? length candidato)%nat)%bool
    with false.
  - apply IH. intros m Hm. apply H. now right.
  - symmetry. apply andb_false_iff.
    destruct (H n (or_introl eq_refl)) as [H' | H']; [now left|].
    right. apply Nat.ltb_ge. exact H'.
Qed.

(** C9: when a catalog name is the first, in the order MARIA, MONICA,
    JUAN, JOSE, LUIS, CARLOS, ISABEL, that the candidate line starts with
    and goes beyond, the given names recorded are that name, one space,
    and the remainder of the candidate; no other entry is applied. *)
Theorem separar_nombres_catalogo antes nombre despues candidato :
  nombres_comunes = antes ++ nombre :: despues ->
  (forall n, In n antes ->
             startswith n candidato = false
             \/ (length candidato <= length n)%nat) ->
  startswith nombre candidato = true ->
  (length nombre < length candidato)%nat ->
  exists resto,
    candidato = nombre ++ resto /\ resto <> []
    /\ separar_nombres nombres_comunes candidato = nombre ++ espacio :: resto
    /\ forall lineas d,
         tras_ancla re_pre_nombres lineas = Some candidato ->
         nombres (extraer_nombres lineas d) = Some (nombre ++ espacio :: resto).
Proof.
  intros Hcat Hantes Hs Hl.
  destruct (proj1 (startswith_iff _ _) Hs) as (resto & ->).
  exists resto.
  assert (Hsep : separar_nombres nombres_comunes (nombre ++ resto)
                 = nombre ++ espacio :: resto).
  { rewrite Hcat, (separar_nombres_first _ _ _ _ Hantes Hs Hl).
    rewrite skipn_app, skipn_all, Nat.sub_diag. reflexivity. }
  repeat split.
  - intros ->. rewrite app_nil_r in Hl. lia.
  - exact Hsep.
  - intros lineas d Hanc. unfold extraer_nombres. rewrite Hanc, Hsep.
    reflexivity.
Qed.

(** C10: a candidate that already has a space after a catalog name gets
    a second one, and the given names are recorded with both. *)
Theorem separar_nombres_doble_espacio nombre resto :
  In nombre nombres_comunes ->
  separar_nombres nombres_comunes (nombre ++ espacio :: resto)
  = nombre ++ espacio :: espacio :: resto
  /\ forall lineas d,
       tras_ancla re_pre_nombres lineas = Some (nombre ++ espacio :: resto) ->
       nombres (extraer_nombres lineas d)
       = Some (nombre ++ espacio :: espacio :: resto).
Proof.
  intros Hin.
  assert (Hsep : separar_nombres nombres_comunes (nombre ++ espacio :: resto)
                 = nombre ++ espacio :: espacio :: resto).
  { unfold nombres_comunes in Hin. cbn [List.map In] in Hin.
    repeat destruct Hin as [<- | Hin]; try reflexivity. destruct Hin. }
  split; [exact Hsep|].
  intros lineas d Hanc. unfold extraer_nombres. rewrite Hanc, Hsep.
  reflexivity.
Qed.

Lemma armar_nombre_completo_spec x :
  nombre_completo x = None ->
  let d := armar_nombre_completo x in
  (nombre_completo d <> None
   <-> nombres d <> None /\ apellido_paterno d <> None)
  /\ (forall n p m,
        nombres d = Some n -> apellido_paterno d = Some p ->
        apellido_materno d = Some m ->
        nombre_completo d = Some (n ++ lit " " ++ p ++ lit " " ++ m))
  /\ (forall n p,
        nombres d = Some n -> apellido_paterno d = Some p ->
        apellido_materno d = None ->
        nombre_completo d = Some (n ++ lit " " ++ p)).
Proof.
  intros Hx. unfold armar_nombre_completo.
  destruct (nombres x) as [n|] eqn:En;
    [destruct (apellido_paterno x) as [p|] eqn:Ep;
     [destruct (apellido_materno x) as [m|] eqn:Em|]|];
    cbn zeta;
    cbn [nombres apellido_paterno apellido_materno nombre_completo
         set_nombre_completo];
    rewrite ?En, ?Ep, ?Em, ?Hx;
    (split; [split; [intros H; try congruence; split; discriminate
                    | intros [H1 H2]; try congruence; discriminate]
            | split; intros; try congruence;
              repeat match goal with
                     | H : Some _ = Some _ |- _ => injection H as <-
                     end; reflexivity]).
Qed.

(** C8: the full name is present exactly when the given names and the
    paternal surname both are; it is then names, paternal and maternal
    surname joined by single spaces, or names and paternal surname when
    there is no maternal surname. *)
Theorem nombre_completo_spec hoy texto :
  exists d,
    parsear_dni hoy texto = Ret d
    /\ (nombre_completo d <> None
        <-> nombres d <> None /\ apellido_paterno d <> None)
    /\ (forall n p m,
          nombres d = Some n -> apellido_paterno d = Some p ->
          apellido_materno d = Some m ->
          nombre_completo d = Some (n ++ lit " " ++ p ++ lit " " ++ m))
    /\ (forall n p,
          nombres d = Some n -> apellido_paterno d = Some p ->
          apellido_materno d = None ->
          nombre_completo d = Some (n ++ lit " " ++ p)).
Proof.
  eexists. split; [apply parsear_dni_eq|].
  apply armar_nombre_completo_spec. key_through. reflexivity.
Qed.

End Assembly.

(** * The entry point *)
Section EntryPoint.
Context {U : UnicodeDB}.
Variable imagen : Type.

(** C7: once the text has been read from the image, a record without
    document number gives the document-number error whatever else was
    extracted, and a record with one is returned as it is, whichever of
    its other keys are missing; the parser itself never raises. *)
Theorem sin_dni_es_error (c : colaboradores imagen) hoy imagen_path
    ocr img img_mejorada b bs paginas :
  ocr_engine imagen c = Some ocr ->
  cv2_imread imagen c imagen_path = Ret (Some img) ->
  mejorar_imagen_avanzada imagen c img = Ret img_mejorada ->
  ocr img_mejorada = Ret (Some (Some (b :: bs) :: paginas)) ->
  exists d,
    parsear_dni hoy (join_lineas (b :: bs)) = Ret d
    /\ (dni d = None ->
        extraer_datos_dni imagen c hoy imagen_path
        = Error (lit "No se pudo detectar el DNI en la imagen"))
    /\ (dni d <> None -> extraer_datos_dni imagen c hoy imagen_path = Datos d).
Proof.
  intros He Hi Hm Ho.
  destruct (dni_parsear hoy (join_lineas (b :: bs))) as (d & Hd & Hdni).
  exists d. split; [exact Hd|].
  unfold extraer_datos_dni. rewrite He, Hi, Hm, Ho, Hd.
  split.
  - intros ->. reflexivity.
  - intros Hn. destruct (dni d) as [x|] eqn:Ex; [|congruence].
    symmetry in Hdni. apply extraer_dni_8 in Hdni as [Hl _].
    destruct x; [discriminate Hl | reflexivity].
Qed.

End EntryPoint.

(** * The surnames and the given names *)
Section Names.
Context {U : UnicodeDB}.
Import Re ReFacts.

Lemma star_run_in p pv s g st :
  In st (star_run p pv s g) ->
  exists a, s = a ++ rest st /\ forallb p a = true.
Proof.
  revert pv; induction s as [|c t IH]; intros pv; cbn [star_run].
  - intros [<- | []]. exists []. now split.
  - destruct (p c) eqn:E.
    + rewrite in_app_iff. intros [H | [<- | []]].
      * destruct (IH _ H) as (a & -> & Ha). exists (c :: a).
        split; [reflexivity|]. simpl. now rewrite E.
      * exists []. now split.
    + intros [<- | []]. exists []. now split.
Qed.

Lemma hd_error_in {A} (l : list A) x : hd_error l = Some x -> In x l.
Proof. destruct l; [discriminate|]. intros [= ->]. now left. Qed.

(** A line that passes [^[A-ZÁÉÍÓÚÑ\s]+$] is made of those characters. *)
Lemma re_letras_valida s :
  found (rmatch re_letras s) = true -> forallb letra_o_espacio s = true.
Proof.
  unfold found, rmatch, match_at.
  destruct (hd_error _) as [m|] eqn:E; [intros _ | discriminate].
  apply hd_error_in in E. unfold re_letras, Plus in E.
  rewrite run_seq in E. cbn [run prev] in E. cbn [flat_map] in E.
  rewrite app_nil_r in E. apply in_flat_map in E as (st1 & H1 & Hm).
  apply in_flat_map in H1 as (st0 & H0 & H1).
  cbn [rest grp] in H0. destruct s as [|c t]; [destruct H0|].
  destruct (letra_o_espacio c) eqn:Ec; [|destruct H0].
  destruct H0 as [<- | []]. cbn [prev rest grp] in H1.
  apply star_run_in in H1 as (a & -> & Ha).
  cbn [forallb]. rewrite Ec, forallb_app, Ha. cbn [andb].
  destruct (rest st1) as [|x [|y r]]; [reflexivity | | destruct Hm].
  destruct (char_eqb x 10%N) eqn:Ex; [|destruct Hm].
  apply N.eqb_eq in Ex. subst x. reflexivity.
Qed.

(** Both surname extractors store only validated lines. *)
Lemma apellidos_validos hoy texto :
  exists d,
    parsear_dni hoy texto = Ret d
    /\ (forall x, apellido_paterno d = Some x ->
                  forallb letra_o_espacio x = true)
    /\ (forall x, apellido_materno d = Some x ->
                  forallb letra_o_espacio x = true).
Proof.
  eexists. split; [apply parsear_dni_eq|]. split; intros x; key_through.
  - unfold extraer_apellido_paterno.
    destruct (tras_ancla _ _) as [cand|]; [|key_through; discriminate].
    destruct (found (rmatch re_letras cand)) eqn:Ev;
      [|key_through; discriminate].
    cbn. intros [= <-]. now apply re_letras_valida.
  - unfold extraer_apellido_materno.
    destruct (tras_ancla _ _) as [cand|]; [|key_through; discriminate].
    destruct (found (rmatch re_letras _)) eqn:Ev;
      [|key_through; discriminate].
    cbn. intros [= <-]. now apply re_letras_valida.
Qed.

End Names.

(** * The age *)

(** Full years elapsed from [nac] to [hoy]: the difference of the years,
    less one while the anniversary of the current year is still ahead. *)
Definition aniversario_pendiente (hoy nac : Calendar.datetime) : bool :=
  let (_, hm, hd, hu) := hoy in
  let (_, nm, nd, nu) := nac in
  ((hm <? nm)
   || ((hm =? nm) && ((hd <? nd) || ((hd =? nd) && (hu <? nu)))))%bool.

Definition anios_cumplidos (hoy nac : Calendar.datetime) : Z :=
  Calendar.dt_year hoy - Calendar.dt_year nac
  - (if aniversario_pendiente hoy nac then 1 else 0).

(** The age of a candidate in full years, at the date its repaired
    digits denote. *)
Definition anios_de {U : UnicodeDB} (hoy : Calendar.datetime) (raw : str) : Z :=
  anios_cumplidos hoy (fecha_de raw).

(** A candidate that qualifies beyond doubt: the corrector returns a date
    for it and its age in full years is between 0 and 119. *)
Definition califica {U : UnicodeDB} (hoy : Calendar.datetime) (raw : str)
    : Prop :=
  (exists f, corregir_fecha_ocr raw = Ret (Some f))
  /\ 0 <= anios_de hoy raw <= 119.

(** A candidate that fails beyond doubt: the corrector returns none for
    it, or its age in full years is negative or above 120. *)
Definition descartada {U : UnicodeDB} (hoy : Calendar.datetime) (raw : str)
    : Prop :=
  corregir_fecha_ocr raw = Ret None
  \/ anios_de hoy raw < 0 \/ 120 < anios_de hoy raw.

(** * Concrete runs

    The texts below are ASCII, so the table of the interpreter is never
    consulted outside ASCII and [ascii_db] stands for any table. *)
Module Runs.

Definition linea_nueva : char := 10%N.

(** Texts made of several lines. *)
Fixpoint texto_de (lineas : list string) : str :=
  match lineas with
  | [] => []
  | [l] => lit l
  | l :: otras => lit l ++ linea_nueva :: texto_de otras
  end.

Definition hoy_2026 : Calendar.datetime := Calendar.mk_datetime 2026 11 3 0.
Definition hoy_2019 : Calendar.datetime := Calendar.mk_datetime 2019 12 28 0.

End Runs.
Import Runs.

Lemma corregir_fecha_ocr_spec_witness :
  length (lit "35112002") = 8%nat
  /\ @corregir_fecha_ocr ascii_db (lit "35112002")
     = Ret (Some (lit "05/11/2002")).
Proof.
  split; [reflexivity|].
  destruct (@corregir_fecha_ocr_spec ascii_db (lit "35112002"))
    as (_ & H & _).
  destruct (H eq_refl eq_refl) as [Hreal _].
  apply Hreal.
  change (CalendarFacts.fecha_real 2002 11 5).
  unfold CalendarFacts.fecha_real, CalendarFacts.bisiesto. lia.
Defined.

(** The day test converts a day that is not a number, outside the [try]
    block: the call raises instead of returning. *)
Lemma corregir_fecha_ocr_raises :
  length (lit "3a112002") = 8%nat
  /\ @corregir_fecha_ocr ascii_db (lit "3a112002") = Raise "ValueError"
  /\ forall r, @corregir_fecha_ocr ascii_db (lit "3a112002") <> Ret r.
Proof.
  split; [reflexivity|]. split; [reflexivity|].
  intros r H. vm_compute in H. discriminate H.
Qed.

(** A run of exactly eight digits right after a letter is no candidate:
    the date it holds would qualify, and the birth date is absent. *)
Lemma corrida_tras_letra_no_es_candidata :
  @corridas_de_8 ascii_db (lit "A01012000") = [lit "01012000"]
  /\ @califica ascii_db hoy_2026 (lit "01012000")
  /\ Re.findall (@re_fecha ascii_db) (lit "A01012000") = []
  /\ exists d,
       @parsear_dni ascii_db hoy_2026 (lit "A01012000") = Ret d
       /\ fecha_nacimiento d = None.
Proof.
  split; [reflexivity|]. split.
  { split; [exists (lit "01/01/2000"); reflexivity|].
    change (0 <= 26 <= 119). lia. }
  split; [reflexivity|].
  eexists. split; reflexivity.
Qed.

(** The document-number pattern as the claim words it: at least one
    whitespace character after DNI, and exactly eight digits. *)
Definition ocurre_dni_estricto {U : UnicodeDB} (s d : str) : Prop :=
  exists l ws t,
    s = l ++ ws ++ d ++ t /\ coincide Re.ci_eq (lit "DNI") l
    /\ ws <> [] /\ forallb is_space ws = true /\ es_8_digitos d
    /\ Re.at_word is_digit (hd_error t) = false.

Lemma dni_reconocido_witness :
  exists d,
    @parsear_dni ascii_db hoy_2026 (lit "dni  12345678") = Ret d
    /\ dni d <> None
    /\ @dni_capturado ascii_db (lit "dni  12345678") = Some (lit "12345678").
Proof.
  destruct (@dni_reconocido ascii_db hoy_2026 (lit "dni  12345678"))
    as (d & Hd & Hiff & Hcap).
  exists d. split; [exact Hd|]. split.
  - apply Hiff. exists [], (lit "dni  12345678"), (lit "12345678").
    split; [reflexivity|]. apply dni_en_iff. reflexivity.
  - reflexivity.
Defined.

(** DNI directly followed by the digits is recognised, though no
    whitespace separates them. *)
Lemma dni_sin_espacio_reconocido :
  @dni_capturado ascii_db (lit "DNI12345678") = Some (lit "12345678")
  /\ (exists d,
        @parsear_dni ascii_db hoy_2026 (lit "DNI12345678") = Ret d
        /\ dni d = Some (lit "12345678"))
  /\ ~ contiene (@ocurre_dni_estricto ascii_db) (lit "DNI12345678").
Proof.
  split; [reflexivity|]. split; [eexists; split; reflexivity|].
  intros (a & s & d & Hs & l & ws & t & Hs' & Hl & Hne & _ & [Hd _] & _).
  apply coincide_length in Hl. cbn in Hl.
  apply (f_equal (@length char)) in Hs.
  apply (f_equal (@length char)) in Hs'.
  rewrite length_app in Hs. rewrite !length_app in Hs'.
  change (length (lit "DNI12345678")) with 11%nat in Hs.
  destruct ws as [|w ws]; [congruence|]. cbn [length] in Hs'. lia.
Qed.

Lemma dni_mrz_witness :
  @dni_capturado ascii_db (texto_de ["DNI 00345678"; "PER87654321"]%string)
  = Some (lit "00345678")
  /\ exists d,
       @parsear_dni ascii_db hoy_2026
         (texto_de ["DNI 00345678"; "PER87654321"]%string) = Ret d
       /\ dni d = Some (lit "87654321").
Proof.
  split; [reflexivity|].
  destruct (@dni_mrz ascii_db hoy_2026
              (texto_de ["DNI 00345678"; "PER87654321"]%string)
              (lit "00345678") eq_refl eq_refl)
    as (d & Hd & Hmrz & _).
  exists d. split; [exact Hd|].
  apply Hmrz. apply mrz_capturado_iff. reflexivity.
Defined.

Definition texto_sin_dni : list str :=
  List.map lit
    ["PRIMER APELLIDO"; "QUISPE"; "SEGUNDO APELLIDO"; "MAMANI";
     "PRE NOMBRES"; "ROSA"; "12052001"]%string.

(** Collaborators that read the lines of [texto_sin_dni] from any image. *)
Definition colaboradores_de_prueba : colaboradores unit :=
  mk_colaboradores unit
    (Some (fun _ => Ret (Some [Some texto_sin_dni])))
    (fun _ => Ret (Some tt))
    (fun img => Ret img).

Lemma sin_dni_es_error_witness :
  (exists d,
     @parsear_dni ascii_db hoy_2026 (join_lineas texto_sin_dni) = Ret d
     /\ apellido_paterno d = Some (lit "QUISPE")
     /\ nombres d = Some (lit "ROSA")
     /\ fecha_nacimiento d = Some (lit "12/05/2001"))
  /\ @extraer_datos_dni ascii_db unit colaboradores_de_prueba hoy_2026
       (lit "dni.jpg")
     = Error (lit "No se pudo detectar el DNI en la imagen").
Proof.
  split; [eexists; repeat split; reflexivity|].
  destruct (@sin_dni_es_error ascii_db unit colaboradores_de_prueba hoy_2026
              (lit "dni.jpg") (fun _ => Ret (Some [Some texto_sin_dni])) tt tt
              (lit "PRIMER APELLIDO") (tl texto_sin_dni) []
              eq_refl eq_refl eq_refl eq_refl)
    as (d & Hd & Hnone & _).
  apply Hnone.
  change (@parsear_dni ascii_db hoy_2026
            (join_lineas (lit "PRIMER APELLIDO" :: tl texto_sin_dni)))
    with (@parsear_dni ascii_db hoy_2026 (join_lineas texto_sin_dni)) in Hd.
  vm_compute in Hd. injection Hd as <-. reflexivity.
Defined.

Lemma nombre_completo_spec_witness :
  exists d,
    @parsear_dni ascii_db hoy_2026 (join_lineas texto_sin_dni) = Ret d
    /\ nombre_completo d = Some (lit "ROSA QUISPE MAMANI").
Proof.
  destruct (@nombre_completo_spec ascii_db hoy_2026
              (join_lineas texto_sin_dni))
    as (d & Hd & _ & Htres & _).
  exists d. split; [exact Hd|].
  apply (Htres (lit "ROSA") (lit "QUISPE") (lit "MAMANI"));
    vm_compute in Hd; injection Hd as <-; reflexivity.
Defined.

Lemma separar_nombres_catalogo_witness :
  separar_nombres nombres_comunes (lit "MARIAISABEL") = lit "MARIA ISABEL".
Proof.
  destruct (separar_nombres_catalogo [] (lit "MARIA")
              (List.map lit
                 ["MONICA"; "JUAN"; "JOSE"; "LUIS"; "CARLOS"; "ISABEL"]%string)
              (lit "MARIAISABEL") eq_refl
              (fun n (H : In n []) => match H with end) eq_refl
              ltac:(cbn; lia))
    as (resto & Hc & _ & Hsep & _).
  change (lit "MARIAISABEL") with (lit "MARIA" ++ lit "ISABEL") in Hc.
  apply app_inv_head in Hc. subst resto. exact Hsep.
Defined.

Lemma separar_nombres_doble_espacio_witness :
  separar_nombres nombres_comunes (lit "MARIA ISABEL") = lit "MARIA  ISABEL".
Proof.
  exact (proj1 (separar_nombres_doble_espacio (lit "MARIA") (lit "ISABEL")
                  (or_introl eq_refl))).
Defined.

(** C3 does not hold of the given names: the line after the PRE NOMBRES
    anchor is stored as read, here with a digit in it, although the
    pattern the surnames are checked against rejects it. *)
Theorem nombres_sin_validar :
  exists d,
    @parsear_dni ascii_db hoy_2026
      (texto_de ["PRE NOMBRES"; "PEDRO 4NTONIO"]%string) = Ret d
    /\ nombres d = Some (lit "PEDRO 4NTONIO")
    /\ forallb (@letra_o_espacio) (lit "PEDRO 4NTONIO") = false
    /\ found (Re.rmatch re_letras (lit "PEDRO 4NTONIO")) = false.
Proof. eexists. repeat split; reflexivity. Qed.

(** C4 does not hold of the stored age: born on 1 January 2000 and read
    on 28 December 2019, 7301 days later, the record says 20, while 19
    full years have elapsed. *)
Theorem edad_no_son_anios_cumplidos :
  exists d,
    @parsear_dni ascii_db hoy_2019 (lit "01012000") = Ret d
    /\ fecha_nacimiento d = Some (lit "01/01/2000")
    /\ Calendar.sub_days hoy_2019 (@fecha_de ascii_db (lit "01012000")) = 7301
    /\ edad d = Some 20
    /\ anios_cumplidos hoy_2019 (@fecha_de ascii_db (lit "01012000")) = 19.
Proof. eexists. repeat split; reflexivity. Qed.

(** * Further properties of the date corrector *)
Section CorrectorMore.
Context {U : UnicodeDB}.
Import CalendarFacts.

Lemma str_eqb_eq (a b : str) : str_eqb a b = true <-> a = b.
Proof.
  revert b; induction a as [|x a IH]; intros [|y b]; simpl;
    try (split; [discriminate | discriminate]); [tauto|].
  unfold char_eqb. rewrite andb_true_iff, N.eqb_eq, IH. split.
  - intros [-> ->]. reflexivity.
  - intros [= -> ->]. now split.
Qed.

Lemma str_eqb_neq (a b : str) : str_eqb a b = false -> a <> b.
Proof.
  intros H E. apply str_eqb_eq in E. congruence.
Qed.

(** X1: the corrector raises exactly on a string of eight characters
    whose day part starts with 3 and is not a number for [int]; the
    exception is then the [ValueError] of that conversion. *)
Theorem corregir_fecha_ocr_raise_iff (s : str) (e : string) :
  corregir_fecha_ocr s = Raise e
  <-> length s = 8%nat
      /\ startswith (lit "3") (slice 0 2 s) = true
      /\ int (slice 0 2 s) = None
      /\ e = "ValueError"%string.
Proof.
  unfold corregir_fecha_ocr.
  destruct (length s =? 8)%nat eqn:El; cbn [negb].
  - apply Nat.eqb_eq in El.
    destruct (startswith (lit "3") (slice 0 2 s)) eqn:Es.
    + destruct (int (slice 0 2 s)) as [n|] eqn:Ei.
      * split; [|intros (_ & _ & H & _); discriminate].
        intros H. exfalso. revert H.
        repeat match goal with
               | |- context [match ?x with _ => _ end] => destruct x
               end; discriminate.
      * split.
        -- intros [= <-]. auto.
        -- intros (_ & _ & _ & ->). reflexivity.
    + split; [|intros (_ & H & _); discriminate].
      intros H. exfalso. revert H.
      repeat match goal with
             | |- context [match ?x with _ => _ end] => destruct x
             end; discriminate.
  - apply Nat.eqb_neq in El. split; [discriminate|].
    intros (H & _). contradiction.
Qed.

(** A date text: two, two and four characters around two slashes. *)
Definition formato_fecha (f dia mes anio : str) : Prop :=
  f = dia ++ lit "/" ++ mes ++ lit "/" ++ anio
  /\ length dia = 2%nat /\ length mes = 2%nat /\ length anio = 4%nat.

(** X2: whatever string the corrector is given, a date it returns has the
    shape dd/mm/yyyy, its three parts are numbers for [int] that form a
    real calendar date, and its year part is never 2062 nor 2919. *)
Theorem corregir_fecha_ocr_formato (s f : str) :
  corregir_fecha_ocr s = Ret (Some f) ->
  exists dia mes anio y m d,
    formato_fecha f dia mes anio
    /\ int anio = Some y /\ int mes = Some m /\ int dia = Some d
    /\ fecha_real y m d
    /\ anio <> lit "2062" /\ anio <> lit "2919".
Proof.
  unfold corregir_fecha_ocr.
  destruct (length s =? 8)%nat eqn:El; cbn [negb]; [|discriminate].
  apply Nat.eqb_eq in El.
  destruct (length_8_inv s El) as (c1&c2&c3&c4&c5&c6&c7&c8&->).
  cbn [slice skipn firstn Nat.sub].
  set (mes := if str_eqb [c3; c4] (lit "19") then lit "10" else [c3; c4]).
  set (anio := if str_eqb [c5; c6; c7; c8] (lit "2062") then lit "2002"
               else if str_eqb [c5; c6; c7; c8] (lit "2919") then lit "2019"
               else [c5; c6; c7; c8]).
  assert (Hm : length mes = 2%nat)
    by (unfold mes; destruct (str_eqb [c3; c4] (lit "19")); reflexivity).
  assert (Ha : length anio = 4%nat /\ anio <> lit "2062" /\ anio <> lit "2919").
  { unfold anio. destruct (str_eqb [c5; c6; c7; c8] (lit "2062")) eqn:E1.
    - repeat split; discriminate.
    - destruct (str_eqb [c5; c6; c7; c8] (lit "2919")) eqn:E2.
      + repeat split; discriminate.
      + repeat split; now apply str_eqb_neq. }
  destruct Ha as (Ha & Hn1 & Hn2).
  clearbody mes anio.
  assert (Hfin : forall dia : str, length dia = 2%nat ->
    match int anio, int mes, int dia with
    | Some y, Some m, Some d =>
        match Calendar.make y m d with
        | Some _ => Ret (Some (fmt_fecha dia mes anio))
        | None => Ret None
        end
    | _, _, _ => Ret None
    end = Ret (Some f) ->
    exists dia mes anio y m d,
      formato_fecha f dia mes anio
      /\ int anio = Some y /\ int mes = Some m /\ int dia = Some d
      /\ fecha_real y m d
      /\ anio <> lit "2062" /\ anio <> lit "2919").
  { intros dia Hd.
    destruct (int anio) as [y|] eqn:Ey; [|discriminate].
    destruct (int mes) as [m|] eqn:Em; [|discriminate].
    destruct (int dia) as [d|] eqn:Ed; [|discriminate].
    unfold Calendar.make.
    destruct (Calendar.check_date_fields y m d) eqn:Ec; [|discriminate].
    intros [= <-]. exists dia, mes, anio, y, m, d.
    split; [repeat split; assumption|].
    split; [exact Ey|]. split; [exact Em|]. split; [exact Ed|].
    split; [now apply check_date_fields_iff|]. split; assumption. }
  destruct (startswith (lit "3") [c1; c2]).
  - destruct (int [c1; c2]) as [n|]; [|discriminate].
    destruct (31 <? n); apply Hfin; reflexivity.
  - apply Hfin. reflexivity.
Qed.

Lemma partes_length raw :
  es_8_digitos raw ->
  length (dia_de raw) = 2%nat /\ length (mes_de raw) = 2%nat
  /\ length (anio_de raw) = 4%nat.
Proof.
  intros [Hl _].
  destruct (length_8_inv raw Hl) as (c1&c2&c3&c4&c5&c6&c7&c8&->).
  unfold dia_de, mes_de, anio_de, dia_corregido, mes_corregido,
    anio_corregido.
  cbn [slice skipn firstn Nat.sub].
  repeat split;
    repeat match goal with
           | |- context [if ?x then _ else _] => destruct x
           end; reflexivity.
Qed.

Lemma dia_corregido_idem a b :
  dia_corregido (dia_corregido [a; b]) = dia_corregido [a; b].
Proof.
  unfold dia_corregido at 2 3.
  destruct (startswith (lit "3") [a; b] && (31 <? valor [a; b]))%bool eqn:E.
  - reflexivity.
  - unfold dia_corregido. now rewrite E.
Qed.

Lemma mes_corregido_idem m : mes_corregido (mes_corregido m) = mes_corregido m.
Proof.
  unfold mes_corregido at 2 3. destruct (str_eqb m (lit "19")) eqn:E.
  - reflexivity.
  - unfold mes_corregido. now rewrite E.
Qed.

Lemma anio_corregido_idem y :
  anio_corregido (anio_corregido y) = anio_corregido y.
Proof.
  unfold anio_corregido at 2 3. destruct (str_eqb y (lit "2062")) eqn:E1.
  - reflexivity.
  - destruct (str_eqb y (lit "2919")) eqn:E2.
    + reflexivity.
    + unfold anio_corregido. now rewrite E1, E2.
Qed.

(** X3: on eight digits the repairs are idempotent: the digits of a date
    the corrector returns, fed back to it, give the same date. *)
Theorem corregir_fecha_ocr_idempotente (raw f : str) :
  es_8_digitos raw ->
  corregir_fecha_ocr raw = Ret (Some f) ->
  corregir_fecha_ocr (dia_de raw ++ mes_de raw ++ anio_de raw)
  = Ret (Some f).
Proof.
  intros H8 Hc.
  destruct (partes_digits raw H8) as (Hd & _ & Hm & _ & Ha & _).
  destruct (partes_length raw H8) as (Ld & Lm & La).
  assert (H8' : es_8_digitos (dia_de raw ++ mes_de raw ++ anio_de raw)).
  { split.
    - rewrite !length_app. lia.
    - rewrite !forallb_app, Hd, Hm, Ha. reflexivity. }
  assert (Hparts :
    dia_de (dia_de raw ++ mes_de raw ++ anio_de raw) = dia_de raw
    /\ mes_de (dia_de raw ++ mes_de raw ++ anio_de raw) = mes_de raw
    /\ anio_de (dia_de raw ++ mes_de raw ++ anio_de raw) = anio_de raw).
  { destruct H8 as [Hl _].
    destruct (length_8_inv raw Hl) as (c1&c2&c3&c4&c5&c6&c7&c8&->).
    unfold dia_de, mes_de, anio_de in *.
    cbn [slice skipn firstn Nat.sub] in *.
    destruct (dia_corregido [c1; c2]) as [|x1 [|x2 [|? ?]]] eqn:Ed;
      try discriminate Ld.
    destruct (mes_corregido [c3; c4]) as [|x3 [|x4 [|? ?]]] eqn:Em;
      try discriminate Lm.
    destruct (anio_corregido [c5; c6; c7; c8])
      as [|x5 [|x6 [|x7 [|x8 [|? ?]]]]] eqn:Ea; try discriminate La.
    cbn [app skipn firstn].
    rewrite <- Ed, <- Em, <- Ea.
    now rewrite dia_corregido_idem, mes_corregido_idem, anio_corregido_idem. }
  destruct Hparts as (Pd & Pm & Pa).
  rewrite (corregir_fecha_ocr_8 _ H8').
  rewrite (corregir_fecha_ocr_8 _ H8) in Hc.
  unfold fecha_valida, fecha_texto in *. rewrite Pd, Pm, Pa.
  exact Hc.
Qed.

End CorrectorMore.

(** * Further properties of the parsed record *)
Section RecordMore.
Context {U : UnicodeDB}.
Import CalendarFacts.

(** X4: [parsear_dni] never raises: the corrector is only given runs of
    eight digits, on which it returns, and a date it returns always
    unpacks into three parts. *)
Theorem parsear_dni_no_raise hoy texto :
  exists d, parsear_dni hoy texto = Ret d.
Proof. eexists. apply parsear_dni_eq. Qed.

(** X5: the document number of the record, when present, is made of
    exactly eight decimal digits. *)
Theorem dni_ocho_digitos hoy texto :
  exists d,
    parsear_dni hoy texto = Ret d
    /\ forall x, dni d = Some x ->
                 length x = 8%nat /\ forallb is_digit x = true.
Proof.
  destruct (dni_parsear hoy texto) as (d & Hd & Hdni).
  exists d. split; [exact Hd|]. intros x Hx. rewrite Hdni in Hx.
  exact (extraer_dni_8 _ _ Hx).
Qed.

Lemma primera_aceptable_some hoy cands raw :
  primera_aceptable hoy cands = Some raw ->
  In raw cands /\ aceptable hoy raw = true.
Proof.
  induction cands as [|x cands IH]; cbn [primera_aceptable]; [discriminate|].
  destruct (aceptable hoy x) eqn:E.
  - intros [= <-]. split; [now left | exact E].
  - intros H. destruct (IH H). split; [now right | assumption].
Qed.

(** The three keys of the birth date, read off the accepted candidate. *)
Lemma parsear_fecha_campos hoy texto :
  exists d,
    parsear_dni hoy texto = Ret d
    /\ match primera_aceptable hoy (candidatos_fecha texto) with
       | Some raw =>
           es_8_digitos raw /\ aceptable hoy raw = true
           /\ fecha_nacimiento d = Some (fecha_texto raw)
           /\ fecha_nacimiento_iso d = Some (fecha_iso raw)
           /\ edad d = Some (edad_de hoy raw)
       | None =>
           fecha_nacimiento d = None /\ fecha_nacimiento_iso d = None
           /\ edad d = None
       end.
Proof.
  eexists. split; [apply parsear_dni_eq|].
  destruct (primera_aceptable hoy (candidatos_fecha texto)) as [raw|] eqn:E.
  - apply primera_aceptable_some in E as [Hin Hac].
    split; [exact (candidatos_desde_digits _ _ _ Hin)|].
    split; [exact Hac|].
    repeat split;
      rewrite armar_nombre_completo_keeps, extraer_sexo_keeps by reflexivity;
      reflexivity.
  - repeat split;
      rewrite armar_nombre_completo_keeps, extraer_sexo_keeps by reflexivity;
      cbn [con_fecha]; key_through; reflexivity.
Qed.

(** X6: the keys fecha_nacimiento, fecha_nacimiento_iso and edad are
    written together or not at all, and a stored age lies between 0 and
    120. *)
Theorem fecha_nacimiento_claves hoy texto :
  exists d,
    parsear_dni hoy texto = Ret d
    /\ ((fecha_nacimiento d = None /\ fecha_nacimiento_iso d = None
         /\ edad d = None)
        \/ exists f iso e,
             fecha_nacimiento d = Some f /\ fecha_nacimiento_iso d = Some iso
             /\ edad d = Some e /\ 0 <= e <= 120).
Proof.
  destruct (parsear_fecha_campos hoy texto) as (d & Hd & H).
  exists d. split; [exact Hd|].
  destruct (primera_aceptable hoy (candidatos_fecha texto)) as [raw|].
  - right. destruct H as (_ & Hac & Hf & Hi & He).
    exists (fecha_texto raw), (fecha_iso raw), (edad_de hoy raw).
    repeat split; try assumption;
      unfold aceptable in Hac; rewrite !andb_true_iff, !Z.leb_le in Hac; lia.
  - left. exact H.
Qed.

(** X7: a stored birth date is dd/mm/yyyy in decimal digits, it denotes
    a real calendar date, and the ISO key holds the same three parts as
    yyyy-mm-dd. *)
Theorem fecha_nacimiento_formato hoy texto :
  exists d,
    parsear_dni hoy texto = Ret d
    /\ forall f,
         fecha_nacimiento d = Some f ->
         exists dia mes anio,
           formato_fecha f dia mes anio
           /\ forallb is_digit (dia ++ mes ++ anio) = true
           /\ fecha_real (valor anio) (valor mes) (valor dia)
           /\ fecha_nacimiento_iso d
              = Some (anio ++ lit "-" ++ mes ++ lit "-" ++ dia).
Proof.
  destruct (parsear_fecha_campos hoy texto) as (d & Hd & H).
  exists d. split; [exact Hd|]. intros f Hf.
  destruct (primera_aceptable hoy (candidatos_fecha texto)) as [raw|].
  - destruct H as (H8 & Hac & Hf' & Hi & _).
    rewrite Hf' in Hf. injection Hf as <-.
    destruct (partes_digits raw H8) as (Dd & _ & Dm & _ & Da & _).
    destruct (partes_length raw H8) as (Ld & Lm & La).
    exists (dia_de raw), (mes_de raw), (anio_de raw).
    split; [repeat split; assumption|].
    split; [now rewrite !forallb_app, Dd, Dm, Da|].
    split; [|exact Hi].
    apply check_date_fields_iff. unfold aceptable in Hac.
    apply andb_prop in Hac as [Hac _]. apply andb_prop in Hac as [Hac _].
    exact Hac.
  - destruct H as (H & _). congruence.
Qed.

Lemma sub_days_midnight hoy nac :
  0 <= Calendar.dt_micros hoy < Calendar.MICROS_PER_DAY ->
  Calendar.dt_micros nac = 0 ->
  Calendar.sub_days hoy nac
  = Calendar.toordinal hoy - Calendar.toordinal nac.
Proof.
  intros Hh Hn. unfold Calendar.sub_days. rewrite Hn, Z.sub_0_r.
  unfold Calendar.MICROS_PER_DAY in *.
  rewrite Z.div_add_l by lia. rewrite Z.div_small by lia. lia.
Qed.

(** X8: with a clock whose time of day is within one day, the stored age
    is the number of whole days from the birth date to today's date,
    divided by 365 and rounded down, whatever the time of day; so the
    birth date is never after today and less than 44165 days (121 times
    365) before it. *)
Theorem edad_ventana hoy texto :
  0 <= Calendar.dt_micros hoy < Calendar.MICROS_PER_DAY ->
  exists d,
    parsear_dni hoy texto = Ret d
    /\ forall e,
         edad d = Some e ->
         exists dia mes anio,
           fecha_nacimiento d = Some (dia ++ lit "/" ++ mes ++ lit "/" ++ anio)
           /\ let dias :=
                Calendar.toordinal hoy
                - Calendar.ymd2ord (valor anio) (valor mes) (valor dia) in
              e = dias / 365 /\ 0 <= dias < 44165.
Proof.
  intros Hh.
  destruct (parsear_fecha_campos hoy texto) as (d & Hd & H).
  exists d. split; [exact Hd|]. intros e He.
  destruct (primera_aceptable hoy (candidatos_fecha texto)) as [raw|].
  - destruct H as (_ & Hac & Hf & _ & He').
    rewrite He' in He. injection He as <-.
    exists (dia_de raw), (mes_de raw), (anio_de raw).
    split; [exact Hf|]. cbv zeta.
    unfold aceptable in Hac. rewrite !andb_true_iff, !Z.leb_le in Hac.
    destruct Hac as [[_ H0] H120].
    unfold edad_de, edad_en in *.
    rewrite (sub_days_midnight hoy (fecha_de raw) Hh eq_refl) in *.
    change (Calendar.toordinal (fecha_de raw))
      with (Calendar.ymd2ord (valor (anio_de raw)) (valor (mes_de raw))
              (valor (dia_de raw))) in *.
    split; [reflexivity|].
    set (dias := Calendar.toordinal hoy - _) in *. clearbody dias.
    pose proof (Z.div_mod dias 365 ltac:(lia)) as Hdm.
    pose proof (Z.mod_pos_bound dias 365 ltac:(lia)) as Hmb.
    clear - H0 H120 Hdm Hmb. lia.
  - destruct H as (_ & _ & H). congruence.
Qed.

End RecordMore.

Lemma edad_ventana_witness :
  exists d,
    @parsear_dni ascii_db (Calendar.mk_datetime 2026 11 3 45000000000)
      (lit "01012000") = Ret d
    /\ edad d = Some 26.
Proof.
  destruct (@edad_ventana ascii_db (Calendar.mk_datetime 2026 11 3 45000000000)
              (lit "01012000"))
    as (d & Hd & He).
  { cbn. unfold Calendar.MICROS_PER_DAY. lia. }
  exists d. split; [exact Hd|].
  vm_compute in Hd. injection Hd as <-. reflexivity.
Defined.

(** * The lines of the text *)
Section Lines.
Context {U : UnicodeDB}.
Import Re ReFacts.

Lemma lstrip_by_dropwhile p s : lstrip_by p s = dropwhile p s.
Proof.
  induction s as [|c t IH]; simpl; [reflexivity|].
  destruct (p c); [exact IH | reflexivity].
Qed.

Lemma lstrip_by_decomp p s :
  exists a, s = a ++ lstrip_by p s /\ forallb p a = true.
Proof.
  exists (takewhile p s). rewrite lstrip_by_dropwhile.
  split; [symmetry; apply take_drop_while | apply takewhile_all].
Qed.

Lemma lstrip_by_head p s c t : lstrip_by p s = c :: t -> p c = false.
Proof. rewrite lstrip_by_dropwhile. apply dropwhile_head. Qed.

(** What [strip] keeps is a middle part of the string, with nothing to
    strip at either end. *)
Lemma strip_by_spec p s :
  (exists a b, s = a ++ strip_by p s ++ b)
  /\ (forall c t, strip_by p s = c :: t -> p c = false)
  /\ (forall t c, strip_by p s = t ++ [c] -> p c = false).
Proof.
  unfold strip_by.
  destruct (lstrip_by_decomp p s) as (a & Ha & _).
  destruct (lstrip_by_decomp p (rev (lstrip_by p s))) as (b & Hb & _).
  set (y := lstrip_by p s) in *.
  set (z := lstrip_by p (rev y)) in *.
  assert (Hy : y = rev z ++ rev b).
  { rewrite <- (rev_involutive y), Hb, rev_app_distr. reflexivity. }
  split; [|split].
  - exists a, (rev b). rewrite Ha at 1. now rewrite Hy.
  - intros c t Hz. rewrite Hz in Hy. simpl in Hy.
    exact (lstrip_by_head p s c _ Hy).
  - intros t c Hz.
    assert (Hz' : z = c :: rev t).
    { rewrite <- (rev_involutive z), Hz, rev_app_distr. reflexivity. }
    exact (lstrip_by_head p (rev y) c _ Hz').
Qed.

Lemma split_on_not_nil sep s : split_on sep s <> [].
Proof.
  destruct s as [|c t]; simpl; [discriminate|].
  destruct (char_eqb c sep); [discriminate|].
  destruct (split_on sep t); discriminate.
Qed.

Lemma split_on_pieces sep s p : In p (split_on sep s) -> ~ In sep p.
Proof.
  revert p; induction s as [|c t IH]; intros p; simpl.
  - intros [<- | []] [].
  - destruct (char_eqb c sep) eqn:E.
    + intros [<- | H]; [intros [] | now apply IH].
    + destruct (split_on sep t) as [|p0 ps] eqn:Es.
      * intros [<- | []] [H | []]. subst. unfold char_eqb in E.
        rewrite N.eqb_refl in E. discriminate.
      * intros [<- | H].
        -- intros [H | H].
           ++ subst. unfold char_eqb in E. rewrite N.eqb_refl in E.
              discriminate.
           ++ apply (IH p0); [now left | exact H].
        -- apply IH. now right.
Qed.

Lemma lineas_de_in texto l :
  In l (lineas_de texto) <->
  l <> [] /\ exists p, In p (split_on 10%N texto) /\ l = strip p.
Proof.
  unfold lineas_de. rewrite filter_In, in_map_iff. split.
  - intros [(p & <- & Hp) Hne]. split; [|eauto].
    intros E. rewrite E in Hne. discriminate.
  - intros (Hne & p & Hp & ->). split; [eauto|].
    destruct (strip p); [congruence | reflexivity].
Qed.

(** X9: every line the parser works on is non-empty, holds no line feed,
    and neither starts nor ends with whitespace. *)
Theorem lineas_de_limpias texto l :
  In l (lineas_de texto) ->
  ~ In 10%N l
  /\ (exists c t, l = c :: t /\ is_space c = false)
  /\ (exists t c, l = t ++ [c] /\ is_space c = false).
Proof.
  intros H. apply lineas_de_in in H as (Hne & p & Hp & ->).
  unfold strip in *.
  destruct (strip_by_spec is_space p) as ((a & b & Hab) & Hhd & Hlast).
  split; [|split].
  - intros Hin. apply (split_on_pieces _ _ _ Hp).
    rewrite Hab. apply in_or_app. right. apply in_or_app. now left.
  - destruct (strip_by is_space p) as [|c t] eqn:E; [congruence|].
    exists c, t. split; [reflexivity | exact (Hhd c t eq_refl)].
  - destruct (exists_last Hne) as (t & c & E).
    exists t, c. split; [exact E | exact (Hlast t c E)].
Qed.

Lemma not_in_forallb sep (b : str) :
  ~ In sep b -> forallb (fun c => negb (char_eqb c sep)) b = true.
Proof.
  induction b as [|c b IH]; simpl; [reflexivity|].
  intros H. rewrite IH by tauto. rewrite andb_true_r.
  apply negb_true_iff, N.eqb_neq. intros ->. apply H. now left.
Qed.

Lemma split_join_lineas bloques :
  bloques <> [] ->
  (forall b, In b bloques -> ~ In 10%N b) ->
  split_on 10%N (join_lineas bloques) = bloques.
Proof.
  induction bloques as [|b otros IH]; [congruence|]. intros _ H.
  destruct otros as [|b2 otros].
  - cbn [join_lineas]. apply split_on_no_sep, not_in_forallb, H. now left.
  - change (join_lineas (b :: b2 :: otros))
      with (b ++ 10%N :: join_lineas (b2 :: otros)).
    rewrite split_on_app_sep by (apply not_in_forallb, H; now left).
    rewrite IH; [reflexivity | discriminate |].
    intros x Hx. apply H. now right.
Qed.

(** X10: when no recognised block holds a line feed, the lines the
    parser works on are the blocks handed over by the entry point, each
    stripped, the blank ones dropped, in the same order. *)
Theorem lineas_de_join_lineas bloques :
  (forall b, In b bloques -> ~ In 10%N b) ->
  lineas_de (join_lineas bloques)
  = filter (fun l => negb (str_eqb l [])) (List.map strip bloques).
Proof.
  intros H. destruct bloques as [|b otros]; [reflexivity|].
  unfold lineas_de. rewrite split_join_lineas; [reflexivity | discriminate |].
  exact H.
Qed.

(** ** Anchors *)

Lemma tras_ancla_first ancla antes linea resto :
  (forall l, In l antes -> found (search ancla l) = false) ->
  found (search ancla linea) = true ->
  tras_ancla ancla (antes ++ linea :: resto) = hd_error resto.
Proof.
  intros Hantes Hl. induction antes as [|x antes IH]; cbn [app tras_ancla].
  - now rewrite Hl.
  - rewrite (Hantes x) by now left. apply IH. intros l Hin. apply Hantes.
    now right.
Qed.

Lemma tras_ancla_none ancla lineas :
  (forall l, In l lineas -> found (search ancla l) = false) ->
  tras_ancla ancla lineas = None.
Proof.
  induction lineas as [|x lineas IH]; intros H; cbn [tras_ancla];
    [reflexivity|].
  rewrite (H x) by now left. apply IH. intros l Hin. apply H. now right.
Qed.

Lemma tras_ancla_in ancla lineas c :
  tras_ancla ancla lineas = Some c -> In c lineas.
Proof.
  induction lineas as [|x lineas IH]; cbn [tras_ancla]; [discriminate|].
  destruct (found (search ancla x)).
  - destruct lineas; [discriminate|]. intros [= <-]. right. now left.
  - intros H. right. now apply IH.
Qed.

(** X11: only the first PRIMER APELLIDO anchor counts, and only the line
    right after it: that line is the paternal surname when it passes the
    letters pattern; when it does not, or when the anchor is the last
    line, the key is absent, whatever follows further down. *)
Theorem apellido_paterno_primera_ancla hoy texto antes linea resto :
  lineas_de texto = antes ++ linea :: resto ->
  (forall l, In l antes -> found (search re_primer_apellido l) = false) ->
  found (search re_primer_apellido linea) = true ->
  exists d,
    parsear_dni hoy texto = Ret d
    /\ apellido_paterno d
       = match resto with
         | candidato :: _ =>
             if found (rmatch re_letras candidato) then Some candidato
             else None
         | [] => None
         end.
Proof.
  intros Hl Hantes Hlinea.
  eexists. split; [apply parsear_dni_eq|]. key_through.
  unfold extraer_apellido_paterno.
  rewrite Hl, (tras_ancla_first _ _ _ _ Hantes Hlinea).
  destruct resto as [|cand resto']; cbn [hd_error].
  - key_through. reflexivity.
  - destruct (found (rmatch re_letras cand)); [reflexivity|].
    key_through. reflexivity.
Qed.

(** X12: a key whose anchor matches no line is absent: this holds for
    the paternal surname, the maternal surname and the given names, and
    without given names or paternal surname there is no full name. *)
Theorem sin_ancla_sin_campo hoy texto :
  exists d,
    parsear_dni hoy texto = Ret d
    /\ ((forall l, In l (lineas_de texto) ->
                   found (search re_primer_apellido l) = false) ->
        apellido_paterno d = None /\ nombre_completo d = None)
    /\ ((forall l, In l (lineas_de texto) ->
                   found (search re_segundo_apellido l) = false) ->
        apellido_materno d = None)
    /\ ((forall l, In l (lineas_de texto) ->
                   found (search re_pre_nombres l) = false) ->
        nombres d = None /\ nombre_completo d = None).
Proof.
  eexists. split; [apply parsear_dni_eq|].
  set (x := extraer_sexo texto _).
  assert (Hnc : nombre_completo x = None) by (unfold x; key_through; reflexivity).
  split; [|split]; intros H.
  - assert (Hap : apellido_paterno x = None).
    { unfold x. key_through. unfold extraer_apellido_paterno.
      rewrite (tras_ancla_none _ _ H). key_through. reflexivity. }
    split; [now rewrite armar_nombre_completo_keeps by reflexivity|].
    unfold armar_nombre_completo. rewrite Hap.
    destruct (nombres x); exact Hnc.
  - unfold x. key_through. unfold extraer_apellido_materno.
    rewrite (tras_ancla_none _ _ H). key_through. reflexivity.
  - assert (Hn : nombres x = None).
    { unfold x. key_through. unfold extraer_nombres.
      rewrite (tras_ancla_none _ _ H). key_through. reflexivity. }
    split; [now rewrite armar_nombre_completo_keeps by reflexivity|].
    unfold armar_nombre_completo. rewrite Hn. exact Hnc.
Qed.

End Lines.

(** * Surnames, given names and sex *)
Section FieldsMore.
Context {U : UnicodeDB}.
Import Re ReFacts.

Lemma star_run_first p pv s g :
  exists otros,
    star_run p pv s g
    = mk_mstate (prev_after pv (takewhile p s)) (dropwhile p s) g :: otros.
Proof.
  revert pv; induction s as [|c t IH]; intros pv; cbn [star_run].
  - eexists. reflexivity.
  - destruct (p c) eqn:E; cbn [takewhile dropwhile]; rewrite E.
    + destruct (IH (Some c)) as (m & ->). eexists. reflexivity.
    + eexists. reflexivity.
Qed.

Lemma dropwhile_all p s : forallb p s = true -> dropwhile p s = [].
Proof.
  induction s as [|c t IH]; simpl; [reflexivity|].
  intros H. apply andb_prop in H as [-> H]. auto.
Qed.

(** The letters pattern accepts exactly the non-empty lines made of
    capital letters, accented capitals, Ñ and whitespace. *)
Lemma re_letras_iff s :
  found (rmatch re_letras s) = true
  <-> s <> [] /\ forallb letra_o_espacio s = true.
Proof.
  split.
  - intros H. split; [|now apply re_letras_valida].
    intros ->. discriminate H.
  - intros [Hne Hs]. destruct s as [|c t]; [congruence|].
    simpl in Hs. apply andb_prop in Hs as [Hc Ht].
    unfold found, rmatch, match_at, re_letras, Plus.
    rewrite run_seq.
    change (run Bol (mk_mstate None (c :: t) None))
      with [mk_mstate None (c :: t) None].
    cbn [flat_map]. rewrite app_nil_r, !run_seq, run_chr.
    cbn [rest grp]. rewrite Hc. cbn [flat_map].
    rewrite app_nil_r, run_star. cbn [prev rest grp].
    destruct (star_run_first letra_o_espacio (Some c) t None) as (m & ->).
    cbn [flat_map]. rewrite (dropwhile_all _ _ Ht). reflexivity.
Qed.

(** X13: a surname stored in the record is a non-empty string of capital
    letters A to Z, accented capitals, Ñ and whitespace, and it neither
    starts nor ends with whitespace. *)
Theorem apellidos_formato hoy texto :
  exists d,
    parsear_dni hoy texto = Ret d
    /\ forall x,
         apellido_paterno d = Some x \/ apellido_materno d = Some x ->
         forallb letra_o_espacio x = true
         /\ (exists c t, x = c :: t /\ is_space c = false)
         /\ (exists t c, x = t ++ [c] /\ is_space c = false).
Proof.
  eexists. split; [apply parsear_dni_eq|]. intros x. key_through.
  intros [H | H].
  - unfold extraer_apellido_paterno in H.
    destruct (tras_ancla _ _) as [cand|] eqn:Et;
      [|revert H; key_through; discriminate].
    destruct (found (rmatch re_letras cand)) eqn:Ev;
      [|revert H; key_through; discriminate].
    cbn in H. injection H as <-.
    apply tras_ancla_in, lineas_de_limpias in Et as (_ & Hh & Hl).
    split; [now apply re_letras_valida | now split].
  - unfold extraer_apellido_materno in H.
    destruct (tras_ancla _ _) as [cand|] eqn:Et;
      [|revert H; key_through; discriminate].
    destruct (str_eqb cand (lit "MUNEZ")) eqn:Em.
    + destruct (found (rmatch re_letras (lit "NUNEZ")));
        [|revert H; key_through; discriminate].
      cbn in H. injection H as <-.
      split; [reflexivity|]. split.
      * exists (ch "N"), (lit "UNEZ"). now split.
      * exists (lit "NUNE"), (ch "Z"). now split.
    + destruct (found (rmatch re_letras cand)) eqn:Ev;
        [|revert H; key_through; discriminate].
      cbn in H. injection H as <-.
      apply tras_ancla_in, lineas_de_limpias in Et as (_ & Hh & Hl).
      split; [now apply re_letras_valida | now split].
Qed.

(** X14: the maternal surname is never stored as MUNEZ: a line reading
    exactly MUNEZ after the SEGUNDO APELLIDO anchor is stored as NUNEZ. *)
Theorem apellido_materno_nunca_munez hoy texto :
  exists d,
    parsear_dni hoy texto = Ret d
    /\ apellido_materno d <> Some (lit "MUNEZ")
    /\ (tras_ancla re_segundo_apellido (lineas_de texto) = Some (lit "MUNEZ")
        -> apellido_materno d = Some (lit "NUNEZ")).
Proof.
  eexists. split; [apply parsear_dni_eq|]. key_through.
  unfold extraer_apellido_materno.
  destruct (tras_ancla _ _) as [cand|] eqn:Et.
  - destruct (str_eqb cand (lit "MUNEZ")) eqn:Em.
    + split; [discriminate|]. intros _. reflexivity.
    + split; [|intros [= ->]; discriminate Em].
      destruct (found (rmatch re_letras cand)).
      * cbn. intros [= E]. apply str_eqb_neq in Em. contradiction.
      * key_through. discriminate.
  - split; [key_through; discriminate | discriminate].
Qed.

(** X15: whatever the catalog, name splitting keeps every character of
    the candidate in place and adds at most one space, right after a
    catalog name that the candidate starts with and goes beyond. *)
Theorem separar_nombres_un_espacio catalogo candidato :
  separar_nombres catalogo candidato = candidato
  \/ exists nombre resto,
       In nombre catalogo /\ resto <> []
       /\ candidato = nombre ++ resto
       /\ separar_nombres catalogo candidato = nombre ++ espacio :: resto.
Proof.
  induction catalogo as [|n catalogo IH]; cbn [separar_nombres];
    [now left|].
  destruct (startswith n candidato) eqn:Es; cbn [andb].
  - destruct (length n <? length candidato)%nat eqn:El.
    + right. apply startswith_iff in Es as (resto & ->).
      exists n, resto. split; [now left|].
      rewrite skipn_app, skipn_all, Nat.sub_diag. cbn [skipn app].
      repeat split. intros ->. apply Nat.ltb_lt in El.
      rewrite app_nil_r in El. lia.
    + destruct IH as [IH | (m & r & Hin & Hr)]; [now left|].
      right. exists m, r. split; [now right | exact Hr].
  - destruct IH as [IH | (m & r & Hin & Hr)]; [now left|].
    right. exists m, r. split; [now right | exact Hr].
Qed.

(** ** Sex *)

(** The MRZ sex pattern at the head of a text. *)
Definition ocurre_sexo (s x : str) : Prop :=
  exists a c b t,
    s = a ++ c :: b ++ t /\ x = [c]
    /\ length a = 6%nat /\ forallb is_digit a = true
    /\ (c = ch "M" \/ c = ch "F")
    /\ length b = 7%nat /\ forallb is_digit b = true.

Definition sexo_en (s : str) : option str :=
  if ((6 <=? length s)%nat && forallb is_digit (firstn 6 s))%bool then
    match skipn 6 s with
    | c :: t =>
        if (M_o_F c && (7 <=? length t)%nat && forallb is_digit (firstn 7 t))%bool
        then Some [c] else None
    | [] => None
    end
  else None.

Lemma M_o_F_iff c : M_o_F c = true <-> c = ch "M" \/ c = ch "F".
Proof.
  unfold M_o_F, char_eqb. rewrite orb_true_iff, !N.eqb_eq. tauto.
Qed.

Lemma sexo_en_iff s x : sexo_en s = Some x <-> ocurre_sexo s x.
Proof.
  unfold sexo_en, ocurre_sexo. split.
  - destruct (6 <=? length s)%nat eqn:El; [|discriminate].
    destruct (forallb is_digit (firstn 6 s)) eqn:Ed; [|discriminate].
    cbn [andb]. destruct (skipn 6 s) as [|c t] eqn:Es; [discriminate|].
    destruct (M_o_F c) eqn:Ec; [|discriminate].
    destruct (7 <=? length t)%nat eqn:El7; [|discriminate].
    destruct (forallb is_digit (firstn 7 t)) eqn:Ed7; [|discriminate].
    cbn [andb]. intros H. assert (Hx : x = [c]) by congruence. clear H.
    apply Nat.leb_le in El, El7.
    exists (firstn 6 s), c, (firstn 7 t), (skipn 7 t).
    rewrite firstn_skipn, <- Es, firstn_skipn, !length_firstn.
    repeat split; try assumption; try lia. now apply M_o_F_iff.
  - intros (a & c & b & t & -> & -> & La & Da & Hc & Lb & Db).
    rewrite length_app, firstn_app, La, firstn_all2 by lia.
    rewrite Nat.sub_diag, firstn_O, app_nil_r, Da.
    replace (6 <=? 6 + length (c :: b ++ t))%nat with true
      by (symmetry; apply Nat.leb_le; lia).
    cbn [andb]. rewrite skipn_app, La, skipn_all2 by lia.
    rewrite Nat.sub_diag, skipn_O. cbn [app].
    rewrite (proj2 (M_o_F_iff c) Hc), length_app, firstn_app, Lb,
      firstn_all2 by lia.
    rewrite Nat.sub_diag, firstn_O, app_nil_r, Db.
    replace (7 <=? 7 + length t)%nat with true
      by (symmetry; apply Nat.leb_le; lia).
    reflexivity.
Qed.

Lemma match_at_re_mrz_sexo pv s :
  option_map group1 (match_at re_mrz_sexo pv s) = sexo_en s.
Proof.
  unfold match_at, re_mrz_sexo, sexo_en.
  rewrite run_seq, run_rep_chr. cbn [rest prev grp].
  destruct ((6 <=? length s)%nat && forallb is_digit (firstn 6 s))%bool;
    [|reflexivity].
  cbn [flat_map]. rewrite app_nil_r, run_seq, run_group, run_chr.
  cbn [rest prev grp].
  destruct (skipn 6 s) as [|c t]; [reflexivity|].
  destruct (M_o_F c); [|reflexivity].
  cbn [List.map flat_map rest prev andb]. rewrite app_nil_r, run_rep_chr.
  cbn [rest prev grp].
  replace (length (c :: t) - length t)%nat with 1%nat by (cbn [length]; lia).
  destruct ((7 <=? length t)%nat && forallb is_digit (firstn 7 t))%bool;
    reflexivity.
Qed.

(** X16: the sex is recorded exactly when the text holds six digits, an
    M or an F, and seven more digits; it is then that letter, taken at
    the leftmost such place, with the label MASCULINO for M and FEMENINO
    for F; the two keys are written together. *)
Theorem sexo_desde_mrz hoy texto :
  exists d,
    parsear_dni hoy texto = Ret d
    /\ (sexo d <> None <-> contiene ocurre_sexo texto)
    /\ (forall x, sexo d = Some x <-> primera_ocurrencia ocurre_sexo texto x)
    /\ ((sexo d = None /\ sexo_completo d = None)
        \/ (sexo d = Some (lit "M")
            /\ sexo_completo d = Some (lit "MASCULINO"))
        \/ (sexo d = Some (lit "F")
            /\ sexo_completo d = Some (lit "FEMENINO"))).
Proof.
  eexists. split; [apply parsear_dni_eq|].
  rewrite !armar_nombre_completo_keeps by reflexivity.
  set (x0 := con_fecha _ _ _).
  assert (H0 : sexo x0 = None /\ sexo_completo x0 = None)
    by (unfold x0; split; key_through; reflexivity).
  destruct H0 as [Hs0 Hc0]. clearbody x0.
  pose proof (fun x => search_captura re_mrz_sexo sexo_en ocurre_sexo texto x
                         match_at_re_mrz_sexo sexo_en_iff) as Hcap.
  pose proof (search_contiene re_mrz_sexo sexo_en ocurre_sexo texto
                match_at_re_mrz_sexo sexo_en_iff) as Hnone.
  unfold extraer_sexo.
  destruct (search re_mrz_sexo texto) as [m|] eqn:Em; cbn [option_map] in *.
  - cbn [sexo sexo_completo set_sexo].
    assert (Hm : primera_ocurrencia ocurre_sexo texto (group1 m))
      by now apply Hcap.
    split; [|split].
    + split; [|discriminate]. intros _.
      destruct Hm as (a & s & Hs & Ho & _). exists a, s, (group1 m). now split.
    + intros x. rewrite <- Hcap. split; congruence.
    + destruct Hm as (_ & s & _ & (a & c & b & t & _ & -> & _ & _ & Hc & _) & _).
      destruct Hc as [-> | ->]; [right; left | right; right]; now split.
  - rewrite Hs0, Hc0. split; [|split].
    + split; [congruence|]. intros Hc. exfalso.
      exact (proj1 Hnone eq_refl Hc).
    + intros x. rewrite <- Hcap. split; discriminate.
    + left. now split.
Qed.

End FieldsMore.

(** * Anchor lines *)
Section Anchors.
Context {U : UnicodeDB}.
Import Re ReFacts.

(** A line holding an anchor: the first word in any case, separators,
    the second word in any case. *)
Definition contiene_ancla (p1 : str) (sep : char -> bool) (p2 : str)
    (linea : str) : Prop :=
  exists antes l1 ws l2 despues,
    linea = antes ++ l1 ++ ws ++ l2 ++ despues
    /\ coincide ci_eq p1 l1 /\ forallb sep ws = true /\ coincide ci_eq p2 l2.

Definition ancla_en (p1 : str) (sep : char -> bool) (p2 : str) (s : str)
    : bool :=
  (prefix_ok (List.map ci_eq p1) s
   && prefix_ok (List.map ci_eq p2) (dropwhile sep (skipn (length p1) s)))%bool.

(** A capital letter of a pattern matches neither whitespace nor a
    full stop. *)
Lemma ci_eq_letter p c :
  in_range 65%N 90%N p = true -> ci_eq p c = true ->
  (65 <= c <= 90 \/ 97 <= c <= 122 \/ c = 304 \/ c = 305 \/ c = 383
   \/ c = 8490)%N.
Proof.
  unfold ci_eq, in_range, char_eqb. intros Hp H.
  apply andb_prop in Hp as [Hp1 Hp2]. apply N.leb_le in Hp1, Hp2.
  apply orb_prop in H as [H | H]; [apply orb_prop in H as [H | H]|].
  - unfold lower_simple, char_eqb in H.
    destruct (N.eqb_spec c 304); [lia|].
    destruct (N.eqb_spec c 8490); [lia|].
    apply N.eqb_eq in H. unfold ascii_lower, in_range in H.
    replace (N.leb 65 p && N.leb p 90)%bool with true in H
      by (symmetry; apply andb_true_iff; split; now apply N.leb_le).
    destruct (N.leb 65 c && N.leb c 90)%bool eqn:Ec.
    + apply andb_prop in Ec as [E1 E2]. apply N.leb_le in E1, E2. lia.
    + lia.
  - apply andb_prop in H as [_ H]. apply N.eqb_eq in H. lia.
  - apply andb_prop in H as [_ H]. apply N.eqb_eq in H. lia.
Qed.

Lemma ci_eq_not_sep p c :
  in_range 65%N 90%N p = true -> ci_eq p c = true ->
  is_space c = false /\ char_eqb c (ch ".") = false.
Proof.
  intros Hp H. pose proof (ci_eq_letter p c Hp H) as Hc. clear Hp H.
  split; apply not_true_is_false; intros Hs.
  - unfold is_space, is_space_ctype, is_space_wide, in_range, char_eqb in Hs.
    repeat rewrite ?orb_true_iff, ?andb_true_iff, ?N.leb_le, ?N.eqb_eq in Hs.
    lia.
  - apply N.eqb_eq in Hs. subst c. cbn in Hc. lia.
Qed.

Lemma found_option_map {A B} (f : A -> B) (o : option A) :
  match option_map f o with Some _ => true | None => false end
  = match o with Some _ => true | None => false end.
Proof. destruct o; reflexivity. Qed.

Lemma run_anchor p1 sep r2 st :
  (forall pv c t g, sep c = true -> run r2 (mk_mstate pv (c :: t) g) = []) ->
  run (Seq (ilits p1) (Seq (Star sep) r2)) st =
  if prefix_ok (List.map ci_eq p1) (rest st)
  then run r2
         (mk_mstate
            (prev_after (prev_after (prev st) (firstn (length p1) (rest st)))
               (takewhile sep (skipn (length p1) (rest st))))
            (dropwhile sep (skipn (length p1) (rest st))) (grp st))
  else [].
Proof.
  intros Hsep. unfold ilits. rewrite run_seq, run_chars.
  destruct (prefix_ok _ (rest st)); [|reflexivity].
  cbn [flat_map]. rewrite app_nil_r, run_seq, run_star. cbn [rest prev grp].
  rewrite star_then by (intros; now apply Hsep).
  now rewrite length_map.
Qed.

Lemma run_ilits_sep x p2 sep pv c t g :
  in_range 65%N 90%N x = true ->
  (forall z, sep z = true -> is_space z = true \/ char_eqb z (ch ".") = true) ->
  sep c = true ->
  run (ilits (x :: p2)) (mk_mstate pv (c :: t) g) = [].
Proof.
  intros Hx Hsep Hc. unfold ilits. rewrite run_chars. cbn [rest List.map prefix_ok].
  destruct (ci_eq x c) eqn:E; [|reflexivity].
  destruct (ci_eq_not_sep x c Hx E) as [H1 H2].
  destruct (Hsep c Hc); congruence.
Qed.

Lemma ancla_en_iff p1 sep x p2 s :
  in_range 65%N 90%N x = true ->
  (forall z, sep z = true -> is_space z = true \/ char_eqb z (ch ".") = true) ->
  ancla_en p1 sep (x :: p2) s = true <->
  exists l1 ws l2 t,
    s = l1 ++ ws ++ l2 ++ t
    /\ coincide ci_eq p1 l1 /\ forallb sep ws = true
    /\ coincide ci_eq (x :: p2) l2.
Proof.
  intros Hx Hsep. unfold ancla_en. rewrite andb_true_iff, !prefix_ok_iff.
  split.
  - intros [(l1 & r & -> & H1) (l2 & t & Hr & H2)].
    pose proof (coincide_length _ _ _ H1) as L1.
    rewrite skipn_app, <- L1, skipn_all, Nat.sub_diag in Hr.
    cbn [skipn app] in Hr.
    exists l1, (takewhile sep r), l2, t.
    repeat split; try assumption.
    + now rewrite <- Hr, take_drop_while.
    + apply takewhile_all.
  - intros (l1 & ws & l2 & t & -> & H1 & Hws & H2).
    split; [eauto|].
    pose proof (coincide_length _ _ _ H1) as L1.
    rewrite skipn_app, <- L1, skipn_all, Nat.sub_diag.
    cbn [skipn app]. rewrite (dropwhile_app _ _ _ Hws).
    exists l2, t. split; [|exact H2].
    inversion H2 as [|? c ? l2' Hc Hrest]; subst. cbn [app dropwhile].
    destruct (sep c) eqn:Es; [|reflexivity].
    destruct (ci_eq_not_sep x c Hx Hc) as [N1 N2].
    destruct (Hsep c Es); congruence.
Qed.

Lemma run_opt_found r st :
  found (hd_error (flat_map (run (Opt r)) [st])) = true.
Proof.
  cbn [flat_map]. rewrite app_nil_r.
  change (run (Opt r) st) with (run r st ++ [st]).
  destruct (run r st); reflexivity.
Qed.

(** Whether a search finds anything, position by position. *)
Lemma search_found r (en : str -> bool) s :
  (forall pv b, found (match_at r pv b) = en b) ->
  found (search r s) = true <-> exists a b, s = a ++ b /\ en b = true.
Proof.
  intros Hen. unfold search. split.
  - destruct (search_from r None s) as [m|] eqn:E; [|discriminate].
    intros _. apply search_from_spec in E as (a & b & Hs & Hm & _).
    exists a, b. split; [exact Hs|].
    rewrite <- (Hen (prev_after None a)), Hm. reflexivity.
  - intros (a & b & Hs & Hb).
    destruct (search_from r None s) as [m|] eqn:E; [reflexivity|].
    pose proof (proj1 (search_from_none _ _ _) E a b Hs) as Hn.
    rewrite <- (Hen (prev_after None a)), Hn in Hb. discriminate.
Qed.

Lemma sep_is_space z :
  is_space z = true -> is_space z = true \/ char_eqb z (ch ".") = true.
Proof. now left. Qed.

Lemma sep_punto_o_espacio z :
  punto_o_espacio z = true ->
  is_space z = true \/ char_eqb z (ch ".") = true.
Proof. unfold punto_o_espacio. rewrite orb_true_iff. tauto. Qed.

Lemma contiene_ancla_iff p1 sep x p2 linea :
  in_range 65%N 90%N x = true ->
  (forall z, sep z = true -> is_space z = true \/ char_eqb z (ch ".") = true) ->
  (exists a b, linea = a ++ b /\ ancla_en p1 sep (x :: p2) b = true)
  <-> contiene_ancla p1 sep (x :: p2) linea.
Proof.
  intros Hx Hsep. unfold contiene_ancla. split.
  - intros (a & b & -> & H). apply (ancla_en_iff _ _ _ _ _ Hx Hsep) in H.
    destruct H as (l1 & ws & l2 & t & -> & H). exists a, l1, ws, l2, t.
    split; [reflexivity | exact H].
  - intros (a & l1 & ws & l2 & t & -> & H).
    exists a, (l1 ++ ws ++ l2 ++ t). split; [reflexivity|].
    apply (ancla_en_iff _ _ _ _ _ Hx Hsep). exists l1, ws, l2, t.
    split; [reflexivity | exact H].
Qed.

(** X17: a line is an anchor exactly when it holds, in any case, PRIMER
    then APELLIDO with only whitespace between them (paternal surname),
    SEGUNDO then APELLIDO with only whitespace and full stops between
    them (maternal surname), PRE then NOMBRE with only whitespace between
    them (given names); the optional final S of NOMBRES makes no
    difference. *)
Theorem anclas_reconocidas linea :
  (found (search re_primer_apellido linea) = true
   <-> contiene_ancla (lit "PRIMER") is_space (lit "APELLIDO") linea)
  /\ (found (search re_segundo_apellido linea) = true
      <-> contiene_ancla (lit "SEGUNDO") punto_o_espacio (lit "APELLIDO")
            linea)
  /\ (found (search re_pre_nombres linea) = true
      <-> contiene_ancla (lit "PRE") is_space (lit "NOMBRE") linea).
Proof.
  split; [|split].
  - change (lit "APELLIDO") with (ch "A" :: lit "PELLIDO").
    rewrite <- (contiene_ancla_iff (lit "PRIMER") is_space (ch "A")
                  (lit "PELLIDO") linea eq_refl sep_is_space).
    apply search_found. intros pv b. unfold match_at, re_primer_apellido.
    change (lit "APELLIDO") with (ch "A" :: lit "PELLIDO").
    rewrite run_anchor
      by (intros; now apply (run_ilits_sep (ch "A") (lit "PELLIDO") is_space
                               _ _ _ _ eq_refl sep_is_space)).
    cbn [rest]. unfold ancla_en.
    destruct (prefix_ok (List.map ci_eq (lit "PRIMER")) b); [|reflexivity].
    unfold ilits. rewrite run_chars. cbn [rest andb].
    destruct (prefix_ok _ _); reflexivity.
  - change (lit "APELLIDO") with (ch "A" :: lit "PELLIDO").
    rewrite <- (contiene_ancla_iff (lit "SEGUNDO") punto_o_espacio (ch "A")
                  (lit "PELLIDO") linea eq_refl sep_punto_o_espacio).
    apply search_found. intros pv b. unfold match_at, re_segundo_apellido.
    change (lit "APELLIDO") with (ch "A" :: lit "PELLIDO").
    rewrite run_anchor
      by (intros; now apply (run_ilits_sep (ch "A") (lit "PELLIDO")
                               punto_o_espacio _ _ _ _ eq_refl
                               sep_punto_o_espacio)).
    cbn [rest]. unfold ancla_en.
    destruct (prefix_ok (List.map ci_eq (lit "SEGUNDO")) b); [|reflexivity].
    unfold ilits. rewrite run_chars. cbn [rest andb].
    destruct (prefix_ok _ _); reflexivity.
  - change (lit "NOMBRE") with (ch "N" :: lit "OMBRE").
    rewrite <- (contiene_ancla_iff (lit "PRE") is_space (ch "N")
                  (lit "OMBRE") linea eq_refl sep_is_space).
    apply search_found. intros pv b. unfold match_at, re_pre_nombres.
    change (lit "NOMBRE") with (ch "N" :: lit "OMBRE").
    rewrite run_anchor.
    2:{ intros pv' c t g Hc. rewrite run_seq.
        now rewrite (run_ilits_sep (ch "N") (lit "OMBRE") is_space
                       _ _ _ _ eq_refl sep_is_space). }
    cbn [rest]. unfold ancla_en.
    destruct (prefix_ok (List.map ci_eq (lit "PRE")) b); [|reflexivity].
    rewrite run_seq. unfold ilits. rewrite run_chars. cbn [rest andb].
    destruct (prefix_ok _ _); [apply run_opt_found | reflexivity].
Qed.

End Anchors.

(** * Texts without digits, and the results of the entry point *)
Section Outcomes.
Context {U : UnicodeDB}.
Import Re ReFacts.

Lemma candidatos_desde_sin_digitos pv s :
  (forall c, In c s -> is_digit c = false) -> candidatos_desde pv s = [].
Proof.
  revert pv; induction s as [|c t IH]; intros pv H; cbn [candidatos_desde].
  - now rewrite es_candidato_nil.
  - rewrite IH by (intros x Hx; apply H; now right).
    unfold es_candidato. cbn [firstn forallb].
    rewrite (H c) by now left. cbn [andb].
    now rewrite !andb_false_r.
Qed.

Lemma digitos_no_vacio (x : str) n :
  length x = S n -> forallb is_digit x = true ->
  exists c t, x = c :: t /\ is_digit c = true.
Proof.
  destruct x as [|c t]; [discriminate|]. intros _ H.
  simpl in H. apply andb_prop in H as [H _]. eauto.
Qed.

(** X18: a text with no decimal digit in it gives a record with no
    document number, no birth date and no sex. *)
Theorem sin_digitos_sin_numeros hoy texto :
  (forall c, In c texto -> is_digit c = false) ->
  exists d,
    parsear_dni hoy texto = Ret d
    /\ dni d = None /\ fecha_nacimiento d = None /\ edad d = None
    /\ sexo d = None.
Proof.
  intros H.
  eexists. split; [apply parsear_dni_eq|].
  unfold candidatos_fecha. rewrite (candidatos_desde_sin_digitos None texto H).
  cbn [primera_aceptable con_fecha].
  assert (Hdni : dni_capturado texto = None).
  { apply dni_capturado_none.
    intros (a & s & x & -> & l & ws & t & -> & _ & _ & Hl & Hd).
    destruct (digitos_no_vacio x 7 Hl Hd) as (c & r & -> & Hc).
    rewrite (H c) in Hc; [discriminate|].
    apply in_or_app. right. apply in_or_app. right. apply in_or_app. right.
    now left. }
  assert (Hsexo : search re_mrz_sexo texto = None).
  { pose proof (search_contiene re_mrz_sexo sexo_en ocurre_sexo texto
                  match_at_re_mrz_sexo sexo_en_iff) as Hn.
    destruct (search re_mrz_sexo texto) eqn:E; [|reflexivity].
    exfalso. cbn [option_map] in Hn.
    assert (Hno : ~ contiene ocurre_sexo texto).
    { intros (a & s & x & -> & p & c & b & t & -> & _ & Lp & Dp & _).
      destruct (digitos_no_vacio p 5 Lp Dp) as (z & r & -> & Hz).
      rewrite (H z) in Hz; [discriminate|].
      apply in_or_app. right. now left. }
    apply Hn in Hno. discriminate. }
  repeat split.
  - key_through. rewrite extraer_dni_eq, Hdni. reflexivity.
  - key_through. reflexivity.
  - key_through. reflexivity.
  - rewrite armar_nombre_completo_keeps by reflexivity.
    unfold extraer_sexo. rewrite Hsexo. key_through. reflexivity.
Qed.

Variable imagen : Type.

(** A collaborator raises: with the engine present, the image reader,
    the enhancement or the OCR call, reached in that order, raises [e].
    ([Raise] stands for an exception the [except Exception] clause of the
    entry point catches, [e] for its text.) *)
Definition colaborador_lanza (c : colaboradores imagen) (imagen_path : str)
    (e : string) : Prop :=
  exists ocr,
    ocr_engine imagen c = Some ocr
    /\ (cv2_imread imagen c imagen_path = Raise e
        \/ exists img,
             cv2_imread imagen c imagen_path = Ret (Some img)
             /\ (mejorar_imagen_avanzada imagen c img = Raise e
                 \/ exists img_mejorada,
                      mejorar_imagen_avanzada imagen c img = Ret img_mejorada
                      /\ ocr img_mejorada = Raise e)).

(** X19: the entry point returns either a record, which is then the
    parse of some text and carries a document number of eight decimal
    digits, or an error whose message is one of the four fixed ones, or
    the prefix "Error procesando DNI: " followed by the text of the
    exception that a collaborator raised; and whenever a collaborator
    raises, that last error is the result. *)
Theorem extraer_datos_dni_resultado (c : colaboradores imagen) hoy imagen_path :
  match extraer_datos_dni imagen c hoy imagen_path with
  | Datos d =>
      (exists texto, parsear_dni hoy texto = Ret d)
      /\ exists x, dni d = Some x
                   /\ length x = 8%nat /\ forallb is_digit x = true
  | Error m =>
      m = lit "OCR no inicializado correctamente"
      \/ m = lit "No se pudo cargar la imagen"
      \/ m = lit "No se pudo extraer texto de la imagen"
      \/ m = lit "No se pudo detectar el DNI en la imagen"
      \/ exists e,
           colaborador_lanza c imagen_path e
           /\ m = lit "Error procesando DNI: " ++ lit e
  end
  /\ forall e,
       colaborador_lanza c imagen_path e ->
       extraer_datos_dni imagen c hoy imagen_path
       = Error (lit "Error procesando DNI: " ++ lit e).
Proof.
  unfold colaborador_lanza, extraer_datos_dni, error_procesando. split.
  - destruct (ocr_engine imagen c) as [ocr|]; [|now left].
    destruct (cv2_imread imagen c imagen_path) as [[img|]|e] eqn:Ei;
      [|right; now left | do 4 right; exists e; split; eauto].
    destruct (mejorar_imagen_avanzada imagen c img) as [img'|e] eqn:Em;
      [|do 4 right; exists e; split; eauto 8].
    destruct (ocr img') as [[[|[[|b bs]|] paginas]|]|e] eqn:Eo;
      try (right; right; now left);
      [|do 4 right; exists e; split; eauto 10].
    destruct (dni_parsear hoy (join_lineas (b :: bs))) as (d & Hd & Hdni).
    rewrite Hd.
    destruct (dni d) as [[|x xs]|] eqn:Ex;
      try (right; right; right; now left).
    split; [eauto|]. exists (x :: xs). split; [exact Ex|].
    symmetry in Hdni. exact (extraer_dni_8 _ _ Hdni).
  - intros e (ocr & -> & [-> | (img & -> & [-> | (img' & -> & ->)])]);
      reflexivity.
Qed.

End Outcomes.

(** ** Runs of the further properties *)

Lemma corregir_fecha_ocr_formato_witness :
  exists dia mes anio,
    formato_fecha (lit "15/10/2019") dia mes anio /\ anio <> lit "2919".
Proof.
  destruct (@corregir_fecha_ocr_formato ascii_db (lit "15192919")
              (lit "15/10/2019") eq_refl)
    as (dia & mes & anio & y & m & d & Hf & _ & _ & _ & _ & _ & Hn).
  exists dia, mes, anio. split; [exact Hf | exact Hn].
Defined.

Lemma corregir_fecha_ocr_idempotente_witness :
  @corregir_fecha_ocr ascii_db (lit "05102002") = Ret (Some (lit "05/10/2002")).
Proof.
  exact (@corregir_fecha_ocr_idempotente ascii_db (lit "35192062")
           (lit "05/10/2002") (conj eq_refl eq_refl) eq_refl).
Defined.

Lemma lineas_de_limpias_witness :
  ~ In 10%N (lit "GARCIA")
  /\ (exists c t, lit "GARCIA" = c :: t /\ is_space c = false)
  /\ (exists t c, lit "GARCIA" = t ++ [c] /\ is_space c = false).
Proof.
  apply (lineas_de_limpias
           (texto_de ["  PRIMER APELLIDO "; ""; "  GARCIA  "]%string)).
  right. now left.
Defined.

Lemma lineas_de_join_lineas_witness :
  lineas_de (join_lineas [lit " DNI 12345678 "; lit "   "; lit "QUISPE"])
  = [lit "DNI 12345678"; lit "QUISPE"].
Proof.
  rewrite lineas_de_join_lineas; [reflexivity|].
  intros b [<- | [<- | [<- | []]]] Hin; vm_compute in Hin;
    repeat destruct Hin as [Hin | Hin]; try discriminate Hin; exact Hin.
Defined.

Lemma apellido_paterno_primera_ancla_witness :
  exists d,
    @parsear_dni ascii_db hoy_2026
      (texto_de ["PRIMER APELLIDO"; "G4RCIA"; "PRIMER APELLIDO"; "GARCIA"]%string)
    = Ret d
    /\ apellido_paterno d = None.
Proof.
  destruct (@apellido_paterno_primera_ancla ascii_db hoy_2026
              (texto_de ["PRIMER APELLIDO"; "G4RCIA"; "PRIMER APELLIDO";
                         "GARCIA"]%string)
              [] (lit "PRIMER APELLIDO")
              (List.map lit ["G4RCIA"; "PRIMER APELLIDO"; "GARCIA"]%string)
              eq_refl (fun l (H : In l []) => match H with end) eq_refl)
    as (d & Hd & Hap).
  exists d. split; [exact Hd | exact Hap].
Defined.

Lemma sin_digitos_sin_numeros_witness :
  exists d,
    @parsear_dni ascii_db hoy_2026
      (texto_de ["PRIMER APELLIDO"; "QUISPE"]%string) = Ret d
    /\ dni d = None /\ apellido_paterno d = Some (lit "QUISPE").
Proof.
  destruct (@sin_digitos_sin_numeros ascii_db hoy_2026
              (texto_de ["PRIMER APELLIDO"; "QUISPE"]%string))
    as (d & Hd & Hdni & _).
  { intros c Hin. vm_compute in Hin.
    repeat destruct Hin as [<- | Hin]; try reflexivity. destruct Hin. }
  exists d. split; [exact Hd|]. split; [exact Hdni|].
  vm_compute in Hd. injection Hd as <-. reflexivity.
Defined.

(** * The document number read as a birth date *)
Section Interference.
Context {U : UnicodeDB}.
Import Re ReFacts.

Lemma es_candidato_nondigit pv c t :
  is_digit c = false -> es_candidato pv (c :: t) = false.
Proof.
  intros H. unfold es_candidato. cbn [firstn forallb]. rewrite H.
  cbn [andb]. now rewrite !andb_false_r.
Qed.

Lemma candidatos_desde_dentro pv s :
  at_word is_word pv = true -> forallb is_digit s = true ->
  candidatos_desde pv s = [].
Proof.
  revert pv; induction s as [|c t IH]; intros pv Hp Hs; cbn [candidatos_desde].
  - now rewrite es_candidato_nil.
  - rewrite (es_candidato_word _ _ Hp). cbn [app].
    simpl in Hs. apply andb_prop in Hs as [Hc Ht].
    apply IH; [|exact Ht]. cbn [at_word]. now apply digit_is_word.
Qed.

Lemma candidatos_tras_dni x :
  es_8_digitos x -> candidatos_fecha (lit "DNI " ++ x) = [x].
Proof.
  intros [Hl Hd]. unfold candidatos_fecha.
  change (lit "DNI " ++ x)
    with (ch "D" :: ch "N" :: ch "I" :: ch " " :: x).
  do 4 (cbn [candidatos_desde];
        rewrite es_candidato_nondigit by reflexivity; cbn [app]).
  destruct x as [|c t]; [discriminate Hl|].
  cbn [candidatos_desde].
  assert (Hc : is_digit c = true)
    by (simpl in Hd; now apply andb_prop in Hd).
  rewrite candidatos_desde_dentro;
    [| cbn [at_word]; now apply digit_is_word
     | simpl in Hd; now apply andb_prop in Hd].
  assert (He : es_candidato (Some (ch " ")) (c :: t) = true).
  { unfold es_candidato.
    rewrite <- Hl at 2 3. rewrite firstn_all, skipn_all, Hd, Hl.
    reflexivity. }
  rewrite He, <- Hl, firstn_all. reflexivity.
Qed.

Lemma aceptable_no_00 hoy x :
  es_8_digitos x -> aceptable hoy x = true -> startswith (lit "00") x = false.
Proof.
  intros [Hl _] Hac. apply not_true_is_false. intros H00.
  destruct (length_8_inv x Hl) as (c1&c2&c3&c4&c5&c6&c7&c8&->).
  cbn [startswith lit List.map list_ascii_of_string] in H00.
  apply andb_prop in H00 as [H1 H2]. apply andb_prop in H2 as [H2 _].
  apply N.eqb_eq in H1, H2. subst c1 c2.
  unfold aceptable, fecha_valida in Hac.
  apply andb_prop in Hac as [Hac _]. apply andb_prop in Hac as [Hac _].
  unfold Calendar.check_date_fields in Hac.
  apply andb_prop in Hac as [Hac _]. apply andb_prop in Hac as [_ Hac].
  discriminate Hac.
Qed.

(** X20: in a text made of DNI, a space and eight digits, when those
    digits also read as a date the corrector accepts with an age within
    bounds, the same digits are recorded both as the document number and
    as the birth date. *)
Theorem dni_leido_como_fecha hoy x :
  es_8_digitos x -> acepta hoy x ->
  exists d,
    parsear_dni hoy (lit "DNI " ++ x) = Ret d
    /\ dni d = Some x
    /\ corregir_fecha_ocr x = Ret (fecha_nacimiento d)
    /\ edad d = Some (edad_de hoy x).
Proof.
  intros H8 Hac. apply (acepta_iff hoy x H8) in Hac.
  destruct (parsear_fecha_campos hoy (lit "DNI " ++ x)) as (d & Hd & Hf).
  exists d. split; [exact Hd|].
  rewrite (candidatos_tras_dni x H8) in Hf. cbn [primera_aceptable] in Hf.
  rewrite Hac in Hf. destruct Hf as (_ & _ & Hf & _ & He).
  split; [|split; [|exact He]].
  - destruct (dni_parsear hoy (lit "DNI " ++ x)) as (d' & Hd' & Hdni).
    assert (d' = d) by congruence. subst d'.
    rewrite Hdni, extraer_dni_eq.
    assert (Hcap : dni_capturado (lit "DNI " ++ x) = Some x).
    { apply dni_capturado_iff. exists [], (lit "DNI " ++ x).
      split; [reflexivity|]. split.
      - exists (lit "DNI"), (lit " "), []. rewrite app_nil_r.
        split; [reflexivity|]. split; [repeat constructor|].
        split; [reflexivity | exact H8].
      - intros a' s' d'' _ Hlt. simpl in Hlt. lia. }
    now rewrite Hcap, (aceptable_no_00 hoy x H8 Hac).
  - rewrite Hf, (corregir_fecha_ocr_8 x H8).
    unfold aceptable in Hac. apply andb_prop in Hac as [Hac _].
    apply andb_prop in Hac as [Hac _]. now rewrite Hac.
Qed.

End Interference.

Lemma dni_leido_como_fecha_witness :
  exists d,
    @parsear_dni ascii_db hoy_2026 (lit "DNI 01011990") = Ret d
    /\ dni d = Some (lit "01011990")
    /\ fecha_nacimiento d = Some (lit "01/01/1990").
Proof.
  assert (Hac : @acepta ascii_db hoy_2026 (lit "01011990")).
  { split; [exists (lit "01/01/1990"); reflexivity|].
    change (0 <= 36 <= 120). lia. }
  destruct (@dni_leido_como_fecha ascii_db hoy_2026 (lit "01011990")
              (conj eq_refl eq_refl) Hac)
    as (d & Hd & Hdni & Hf & _).
  exists d. split; [exact Hd|]. split; [exact Hdni|].
  change (@corregir_fecha_ocr ascii_db (lit "01011990"))
    with (Ret (Some (lit "01/01/1990"))) in Hf.
  now injection Hf as <-.
Defined.

(** * Days elapsed and full years *)
Module AgeFacts.
Import Calendar CalendarFacts.

(** Leap days up to year [n]. *)
Definition leap_days (n : Z) : Z := n / 4 - n / 100 + n / 400.

Lemma euclid n k : 0 < k -> k * (n / k) <= n < k * (n / k) + k.
Proof.
  intros H. pose proof (Z.div_mod n k ltac:(lia)).
  pose proof (Z.mod_pos_bound n k H). lia.
Qed.

Lemma leap_days_nested n : leap_days n = n / 4 - n / 4 / 25 + n / 4 / 25 / 4.
Proof. unfold leap_days. rewrite !Z.div_div by lia. reflexivity. Qed.

Ltac leap_days_lia n m :=
  rewrite !leap_days_nested;
  pose proof (euclid n 4 ltac:(lia)); pose proof (euclid m 4 ltac:(lia));
  pose proof (euclid (m - n) 4 ltac:(lia));
  pose proof (euclid (n / 4) 25 ltac:(lia));
  pose proof (euclid (m / 4) 25 ltac:(lia));
  pose proof (euclid (n / 4 / 25) 4 ltac:(lia));
  pose proof (euclid (m / 4 / 25) 4 ltac:(lia));
  generalize dependent ((m - n) / 4);
  generalize dependent (n / 4 / 25 / 4); generalize dependent (m / 4 / 25 / 4);
  generalize dependent (n / 4 / 25); generalize dependent (m / 4 / 25);
  generalize dependent (n / 4); generalize dependent (m / 4);
  intros; lia.

Lemma leap_days_mono n m : n <= m -> leap_days n <= leap_days m.
Proof. intros H. leap_days_lia n m. Qed.

Lemma leap_days_upper n m :
  n <= m -> leap_days m - leap_days n <= (m - n) / 4 + 1.
Proof. intros H. leap_days_lia n m. Qed.

Lemma leap_days_lower n m : n + 8 <= m -> leap_days n + 1 <= leap_days m.
Proof. intros H. leap_days_lia n m. Qed.

Lemma div_pred y k :
  (k = 4 \/ k = 100 \/ k = 400) ->
  (y - 1) / k = y / k - (if y mod k =? 0 then 1 else 0).
Proof.
  intros Hk.
  assert (H0 : 0 < k) by lia.
  pose proof (Z.div_mod y k ltac:(lia)) as Hy.
  pose proof (Z.mod_pos_bound y k H0) as Hb.
  destruct (Z.eqb_spec (y mod k) 0) as [E | E]; symmetry.
  - apply Z.div_unique with (r := k - 1); [lia|].
    destruct Hk as [-> | [-> | ->]]; lia.
  - apply Z.div_unique with (r := y mod k - 1); [lia|].
    destruct Hk as [-> | [-> | ->]]; lia.
Qed.

Lemma mod_100_4 y : y mod 100 = 0 -> y mod 4 = 0.
Proof.
  intros H. apply Z.mod_divide in H; [|lia]. destruct H as [k ->].
  replace (k * 100) with (k * 25 * 4) by lia. apply Z.mod_mul; lia.
Qed.

Lemma mod_400_100 y : y mod 400 = 0 -> y mod 100 = 0.
Proof.
  intros H. apply Z.mod_divide in H; [|lia]. destruct H as [k ->].
  replace (k * 400) with (k * 4 * 100) by lia. apply Z.mod_mul; lia.
Qed.

Definition leap_day (y : Z) : Z := if is_leap y then 1 else 0.

(** A year adds a leap day exactly when it is a leap year. *)
Lemma leap_days_step y : leap_days y - leap_days (y - 1) = leap_day y.
Proof.
  unfold leap_days, leap_day, is_leap.
  rewrite (div_pred y 4), (div_pred y 100), (div_pred y 400) by tauto.
  pose proof (mod_100_4 y). pose proof (mod_400_100 y).
  destruct (Z.eqb_spec (y mod 4) 0), (Z.eqb_spec (y mod 100) 0),
    (Z.eqb_spec (y mod 400) 0); cbn [andb orb negb]; try lia; tauto.
Qed.

Lemma days_before_year_eq y :
  days_before_year y = (y - 1) * 365 + leap_days (y - 1).
Proof. unfold days_before_year, leap_days. cbv zeta. lia. Qed.

(** The day of the year. *)
Definition doy (y m d : Z) : Z := days_before_month y m + d.

Lemma ymd2ord_eq y m d :
  ymd2ord y m d = (y - 1) * 365 + leap_days (y - 1) + doy y m d.
Proof. unfold ymd2ord, doy. rewrite days_before_year_eq. lia. Qed.

Lemma check_date_fields_inv y m d :
  check_date_fields y m d = true ->
  1 <= y <= 9999 /\ 1 <= m <= 12 /\ 1 <= d <= days_in_month y m.
Proof.
  unfold check_date_fields, MINYEAR, MAXYEAR.
  rewrite !andb_true_iff, !Z.leb_le. lia.
Qed.

Ltac months m :=
  let H := fresh "Hm" in
  assert (H : m = 1 \/ m = 2 \/ m = 3 \/ m = 4 \/ m = 5 \/ m = 6 \/ m = 7
              \/ m = 8 \/ m = 9 \/ m = 10 \/ m = 11 \/ m = 12) by lia;
  repeat destruct H as [-> | H]; try subst m.

Ltac doy_crush :=
  unfold doy, days_before_month, days_in_month, leap_day in *;
  cbn [DAYS_BEFORE_MONTH DAYS_IN_MONTH Z.eqb Z.ltb Z.compare Pos.compare
       Pos.compare_cont Pos.eqb andb] in *;
  repeat match goal with
         | |- context [is_leap ?y] => destruct (is_leap y)
         | H : context [is_leap ?y] |- _ => destruct (is_leap y)
         end;
  cbn [andb] in *; lia.

Lemma doy_range y m d :
  1 <= m <= 12 -> 1 <= d <= days_in_month y m ->
  1 <= doy y m d <= 365 + leap_day y.
Proof. intros Hm Hd. months m; doy_crush. Qed.

(** The calendar order of two days of the year, told by month and day.
    [antes m d m' d'] says that (m, d) comes strictly before (m', d'). *)
Definition antes (m d m' d' : Z) : Prop := m < m' \/ (m = m' /\ d < d').

(** Across two years, a month and day that is not earlier gives a day of
    the year that is at most one leap day less. *)
Lemma doy_no_antes Y M D y m d :
  1 <= M <= 12 -> 1 <= D <= days_in_month Y M ->
  1 <= m <= 12 -> 1 <= d <= days_in_month y m ->
  ~ antes M D m d ->
  doy y m d - leap_day y <= doy Y M D
  /\ (Y = y -> doy y m d <= doy Y M D).
Proof.
  unfold antes. intros HM HD Hm Hd Hna.
  split; [|intros ->]; months m; months M; doy_crush.
Qed.

Lemma doy_antes Y M D y m d :
  1 <= M <= 12 -> 1 <= D <= days_in_month Y M ->
  1 <= m <= 12 -> 1 <= d <= days_in_month y m ->
  antes M D m d ->
  doy Y M D <= doy y m d + leap_day Y
  /\ (Y = y -> doy Y M D < doy y m d).
Proof.
  unfold antes. intros HM HD Hm Hd Ha.
  split; [|intros ->]; months m; months M; doy_crush.
Qed.

End AgeFacts.

Section AgeInYears.
Context {U : UnicodeDB}.
Import Calendar CalendarFacts AgeFacts.

Lemma aniversario_pendiente_iff Y M D u y m d :
  0 <= u ->
  aniversario_pendiente (mk_datetime Y M D u) (mk_datetime y m d 0) = true
  <-> antes M D m d.
Proof.
  intros Hu. unfold aniversario_pendiente, antes.
  rewrite !orb_true_iff, !andb_true_iff, !Z.ltb_lt, !Z.eqb_eq. lia.
Qed.

(** How the age the loop derives sits against the age in full years: it
    is within bounds when between 0 and 119 full years have elapsed, and
    out of bounds when the date is in the future or more than 120 full
    years have elapsed. *)
Lemma edad_y_anios hoy nac :
  well_formed hoy ->
  check_date_fields (dt_year nac) (dt_month nac) (dt_day nac) = true ->
  dt_micros nac = 0 ->
  (0 <= anios_cumplidos hoy nac <= 119 -> 0 <= edad_en hoy nac <= 120)
  /\ (anios_cumplidos hoy nac < 0 -> edad_en hoy nac < 0)
  /\ (120 < anios_cumplidos hoy nac -> 120 < edad_en hoy nac).
Proof.
  intros [Hh Hu] Hn Hv. unfold edad_en.
  rewrite (sub_days_midnight hoy nac Hu Hv).
  destruct hoy as [Y M D u], nac as [y m d v].
  cbn [dt_year dt_month dt_day dt_micros] in *. subst v.
  unfold toordinal, anios_cumplidos.
  cbn [dt_year dt_month dt_day dt_micros].
  rewrite !ymd2ord_eq.
  apply check_date_fields_inv in Hh as (HY & HM & HD).
  apply check_date_fields_inv in Hn as (Hy & Hm & Hd).
  pose proof (doy_range Y M D HM HD) as RH.
  pose proof (doy_range y m d Hm Hd) as RN.
  pose proof (leap_days_mono (y - 1) (Y - 1)) as M1.
  pose proof (leap_days_mono (Y - 1) (y - 1)) as M1'.
  pose proof (leap_days_mono Y (y - 1)) as M2.
  pose proof (leap_days_upper (y - 1) (Y - 1)) as M3.
  pose proof (leap_days_lower (y - 1) (Y - 1)) as M4.
  pose proof (leap_days_step Y) as M5.
  pose proof (euclid (Y - 1 - (y - 1)) 4 ltac:(lia)) as E4.
  assert (L1 : 0 <= leap_day Y <= 1) by (unfold leap_day; destruct (is_leap Y); lia).
  assert (L2 : 0 <= leap_day y <= 1) by (unfold leap_day; destruct (is_leap y); lia).
  set (dias := (Y - 1) * 365 + leap_days (Y - 1) + doy Y M D
               - ((y - 1) * 365 + leap_days (y - 1) + doy y m d)).
  pose proof (euclid dias 365 ltac:(lia)) as E365.
  assert (Hdias : dias = (Y - 1) * 365 + leap_days (Y - 1) + doy Y M D
                         - ((y - 1) * 365 + leap_days (y - 1) + doy y m d))
    by reflexivity.
  clearbody dias.
  destruct (aniversario_pendiente (mk_datetime Y M D u) (mk_datetime y m d 0))
    eqn:Ep.
  - apply aniversario_pendiente_iff in Ep; [|lia].
    destruct (doy_antes Y M D y m d HM HD Hm Hd Ep) as [A1 A2].
    generalize dependent (leap_days (Y - 1)).
    generalize dependent (leap_days (y - 1)).
    generalize dependent (leap_days Y).
    generalize dependent ((Y - 1 - (y - 1)) / 4).
    generalize dependent (doy Y M D). generalize dependent (doy y m d).
    generalize dependent (leap_day Y). generalize dependent (leap_day y).
    generalize dependent (dias / 365).
    intros. repeat split; intros; lia.
  - assert (Hna : ~ antes M D m d).
    { intros Ha. apply (aniversario_pendiente_iff Y M D u y m d) in Ha; [|lia].
      congruence. }
    destruct (doy_no_antes Y M D y m d HM HD Hm Hd Hna) as [A1 A2].
    generalize dependent (leap_days (Y - 1)).
    generalize dependent (leap_days (y - 1)).
    generalize dependent (leap_days Y).
    generalize dependent ((Y - 1 - (y - 1)) / 4).
    generalize dependent (doy Y M D). generalize dependent (doy y m d).
    generalize dependent (leap_day Y). generalize dependent (leap_day y).
    generalize dependent (dias / 365).
    intros. repeat split; intros; lia.
Qed.

End AgeInYears.

Section BirthDateInYears.
Context {U : UnicodeDB}.
Import Calendar CalendarFacts.

Lemma fecha_valida_edad hoy raw :
  well_formed hoy -> fecha_valida raw = true ->
  (0 <= anios_de hoy raw <= 119 -> 0 <= edad_de hoy raw <= 120)
  /\ (anios_de hoy raw < 0 -> edad_de hoy raw < 0)
  /\ (120 < anios_de hoy raw -> 120 < edad_de hoy raw).
Proof.
  intros Hh Hv. unfold anios_de, edad_de.
  apply (edad_y_anios hoy (fecha_de raw) Hh); [exact Hv | reflexivity].
Qed.

Lemma califica_aceptable hoy raw :
  well_formed hoy -> es_8_digitos raw -> califica hoy raw ->
  aceptable hoy raw = true.
Proof.
  intros Hh H8 [[f Hf] Ha]. rewrite (corregir_fecha_ocr_8 raw H8) in Hf.
  unfold aceptable. destruct (fecha_valida raw) eqn:Ev; [|discriminate].
  destruct (fecha_valida_edad hoy raw Hh Ev) as (H1 & _ & _).
  specialize (H1 Ha). cbn [andb].
  apply andb_true_iff. split; apply Z.leb_le; lia.
Qed.

Lemma descartada_aceptable hoy raw :
  well_formed hoy -> es_8_digitos raw -> descartada hoy raw ->
  aceptable hoy raw = false.
Proof.
  intros Hh H8 Hd. unfold aceptable.
  destruct (fecha_valida raw) eqn:Ev; [|reflexivity]. cbn [andb].
  destruct (fecha_valida_edad hoy raw Hh Ev) as (_ & H2 & H3).
  destruct Hd as [Hd | [Hd | Hd]].
  - rewrite (corregir_fecha_ocr_8 raw H8), Ev in Hd. discriminate.
  - specialize (H2 Hd). apply andb_false_iff. left. apply Z.leb_gt. lia.
  - specialize (H3 Hd). apply andb_false_iff. right. apply Z.leb_gt. lia.
Qed.

(** C2, as amended: the candidates are, in order of appearance, the
    runs of eight digits with no word character (letter, digit or
    underscore) on either side; the corrector is applied to each in turn;
    a candidate for which it returns none, or whose age in full years is
    negative or above 120, is skipped; the first candidate that it turns
    into a date and whose age in full years is between 0 and 119 is
    accepted, and its corrected date is the birth date recorded; when
    every candidate is skipped the birth date is absent.  Nothing is said
    of a candidate whose age in full years is exactly 120. *)
Theorem fecha_nacimiento_primera_candidata hoy texto :
  well_formed hoy ->
  Re.findall re_fecha texto = candidatos_fecha texto
  /\ exists d,
       parsear_dni hoy texto = Ret d
       /\ (forall previas raw despues,
             candidatos_fecha texto = previas ++ raw :: despues ->
             (forall x, In x previas -> descartada hoy x) ->
             califica hoy raw ->
             corregir_fecha_ocr raw = Ret (fecha_nacimiento d))
       /\ ((forall x, In x (candidatos_fecha texto) -> descartada hoy x) ->
           fecha_nacimiento d = None).
Proof.
  intros Hh. split; [apply findall_re_fecha|].
  destruct (fecha_nacimiento_parsear hoy texto) as (d & Hd & Hf & _).
  exists d. split; [exact Hd|].
  assert (H8 : forall x, In x (candidatos_fecha texto) -> es_8_digitos x)
    by (intros x Hx; exact (candidatos_desde_digits _ _ _ Hx)).
  split.
  - intros previas raw despues Hc Hprev Hraw.
    assert (Hr8 : es_8_digitos raw)
      by (apply H8; rewrite Hc; apply in_or_app; right; now left).
    pose proof (califica_aceptable hoy raw Hh Hr8 Hraw) as Hac.
    assert (Hp : primera_aceptable hoy (candidatos_fecha texto) = Some raw).
    { rewrite Hc. apply primera_aceptable_first; [|exact Hac].
      intros x Hx. apply (descartada_aceptable hoy x Hh); [|now apply Hprev].
      apply H8. rewrite Hc. apply in_or_app. now left. }
    rewrite Hf, Hp. cbn [option_map].
    rewrite (corregir_fecha_ocr_8 raw Hr8).
    unfold aceptable in Hac.
    destruct (fecha_valida raw); [reflexivity | discriminate].
  - intros Hnone. rewrite Hf, primera_aceptable_none; [reflexivity|].
    intros x Hx. apply (descartada_aceptable hoy x Hh); auto.
Qed.

End BirthDateInYears.

Lemma fecha_nacimiento_primera_candidata_witness :
  Calendar.well_formed hoy_2026
  /\ exists d,
       @parsear_dni ascii_db hoy_2026 (lit "99999999 01012000 02022002")
       = Ret d
       /\ fecha_nacimiento d = Some (lit "01/01/2000").
Proof.
  assert (Hh : Calendar.well_formed hoy_2026).
  { split; [reflexivity|]. cbn. unfold Calendar.MICROS_PER_DAY. lia. }
  split; [exact Hh|].
  destruct (@fecha_nacimiento_primera_candidata ascii_db hoy_2026
              (lit "99999999 01012000 02022002") Hh)
    as (_ & d & Hd & Hfirst & _).
  exists d. split; [exact Hd|].
  assert (Hcal : @califica ascii_db hoy_2026 (lit "01012000")).
  { split; [exists (lit "01/01/2000"); reflexivity|].
    change (0 <= 26 <= 119). lia. }
  assert (Hprev : forall x, In x [lit "99999999"] ->
                            @descartada ascii_db hoy_2026 x).
  { intros x [<- | []]. left. reflexivity. }
  pose proof (Hfirst [lit "99999999"] (lit "01012000") [lit "02022002"]
                eq_refl Hprev Hcal) as Hc.
  change (@corregir_fecha_ocr ascii_db (lit "01012000"))
    with (Ret (Some (lit "01/01/2000"))) in Hc.
  now injection Hc as <-.
Defined.

(** Collaborators whose image reader raises. *)
Definition colaboradores_sin_lector : colaboradores unit :=
  mk_colaboradores unit
    (Some (fun _ => Ret (Some [Some texto_sin_dni])))
    (fun _ => Raise "archivo ilegible")
    (fun img => Ret img).

Lemma extraer_datos_dni_resultado_witness :
  @extraer_datos_dni ascii_db unit colaboradores_sin_lector hoy_2026
    (lit "dni.jpg")
  = Error (lit "Error procesando DNI: archivo ilegible").
Proof.
  apply (proj2 (@extraer_datos_dni_resultado ascii_db unit
                  colaboradores_sin_lector hoy_2026 (lit "dni.jpg"))).
  eexists. split; [reflexivity|]. now left.
Defined.
